(** * Task store and query engine of the task-management backend

    A shallow embedding of [backend/models/Task.js], of
    [backend/services/taskService.js] and of the aggregation handlers of
    [backend/routes/stats.js], followed by the properties of the
    specification that concern them.

    Conventions of the embedding.
    - JavaScript strings are [string]; [toLowerCase], [trim] and [<] are
      the ASCII ones.
    - A [Date] object is either an instant (milliseconds since the epoch)
      or the Invalid Date, whose time value is NaN.
    - [new Date()] and [uuidv4()] read the environment: every function
      that calls them receives the values read as arguments, in the order
      of the calls.
    - Exceptions are the [Err] results of [result].
    - A [Map] is an association list in insertion order; a plain object
      used as a dictionary is a [gmap] of its own properties together with
      the lookups inherited from [Object.prototype]. *)

From Stdlib Require Import ZArith List Bool String Ascii Sorted Permutation.
From Stdlib Require Import QArith Qround Qabs Lqa Lia.
From stdpp Require Import base gmap strings list.

Local Open Scope string_scope.
Local Open Scope list_scope.
Local Open Scope Z_scope.

(** ** Results and errors *)

(** The messages that [Task.validate] collects, one per violated rule. *)
Inductive Violation :=
| TitleRequired
| TitleTooLong
| DescriptionTooLong
| StatusInvalid
| PriorityInvalid
| DueDateInvalid.

(** What the code throws: [Error('Validation failed: ...')] from the
    model, [Error('Task not found ...')] from the service, and the
    RangeError of [Date.prototype.toISOString] on an Invalid Date. *)
Inductive Error :=
| ValidationError (violations : list Violation)
| NotFoundError
| RangeError.

Inductive result (A : Type) :=
| Ok (a : A)
| Err (e : Error).
Arguments Ok {A} a.
Arguments Err {A} e.

Definition bind {A B} (r : result A) (k : A -> result B) : result B :=
  match r with
  | Ok a => k a
  | Err e => Err e
  end.

Notation "'let*' x ':=' r 'in' k" := (bind r (fun x => k))
  (at level 10, x name, r at level 200, k at level 200).

(** [xs.map(f)] where [f] may throw: the first exception aborts the map. *)
Fixpoint mapM {A B} (f : A -> result B) (xs : list A) : result (list B) :=
  match xs with
  | [] => Ok []
  | x :: xs' => let* y := f x in let* ys := mapM f xs' in Ok (y :: ys)
  end.

(** ** JavaScript strings *)

Module Js.

Definition is_upper (c : ascii) : bool :=
  ((65 <=? Z.of_nat (nat_of_ascii c)) && (Z.of_nat (nat_of_ascii c) <=? 90))%Z.

Definition lower_char (c : ascii) : ascii :=
  if is_upper c then ascii_of_nat (nat_of_ascii c + 32) else c.

(** [s.toLowerCase()] *)
Fixpoint toLowerCase (s : string) : string :=
  match s with
  | EmptyString => EmptyString
  | String c s' => String (lower_char c) (toLowerCase s')
  end.

(** White space removed by [trim]: TAB, LF, VT, FF, CR and space. *)
Definition is_space (c : ascii) : bool :=
  let n := nat_of_ascii c in
  ((9 <=? n) && (n <=? 13) || (n =? 32))%nat.

(** [s.trim().length === 0] *)
Fixpoint blank (s : string) : bool :=
  match s with
  | EmptyString => true
  | String c s' => is_space c && blank s'
  end.

(** [s.includes(sub)] *)
Fixpoint includes (s sub : string) : bool :=
  String.prefix sub s ||
  match s with
  | EmptyString => false
  | String _ s' => includes s' sub
  end.

(** Truthiness of a string: only the empty string is falsy. *)
Definition truthy (s : string) : bool := negb (String.eqb s EmptyString).

(** [o || d] for a string-valued property [o] that may be undefined. *)
Definition or_else (o : option string) (d : string) : string :=
  match o with
  | Some s => if truthy s then s else d
  | None => d
  end.

(** [arr.includes(x)] on an array of strings. *)
Definition arr_includes (arr : list string) (x : string) : bool :=
  existsb (String.eqb x) arr.

(** [arr.slice(start, end)] with the relative-index rules of the
    language: a negative index counts from the end, and both ends are
    clamped to the array. *)
Definition rel_index (len k : Z) : Z :=
  if k <? 0 then Z.max (len + k) 0 else Z.min k len.

Definition slice {A} (arr : list A) (start end_ : Z) : list A :=
  let len := Z.of_nat (length arr) in
  let k := rel_index len start in
  let final := rel_index len end_ in
  firstn (Z.to_nat (final - k)) (skipn (Z.to_nat k) arr).

(** [Math.ceil(a / b)] for integers [a] and [b <> 0]; the quotient of two
    integers below 2^53 is correctly rounded, so its ceiling is exact. *)
Definition ceil_div (a b : Z) : Z := - ((- a) / b).

End Js.

(** ** Dates *)

Inductive Date :=
| Instant (ms : Z)
| InvalidDate.

(** [isNaN(d.getTime())] *)
Definition Date_isNaN (d : Date) : bool :=
  match d with
  | Instant _ => false
  | InvalidDate => true
  end.

(** [a < b] on two dates: both are converted to their time values, and
    every comparison with NaN is false. *)
Definition Date_ltb (a b : Date) : bool :=
  match a, b with
  | Instant x, Instant y => x <? y
  | _, _ => false
  end.

(** [d.toISOString()]: the text of an instant, which we keep as the
    instant itself; a RangeError on the Invalid Date. *)
Definition toISOString (d : Date) : result Z :=
  match d with
  | Instant ms => Ok ms
  | InvalidDate => Err RangeError
  end.

(** ** The Task model ([backend/models/Task.js]) *)

Record Task := mkTask {
  id : string;
  title : string;
  description : string;
  status : string;
  priority : string;
  dueDate : option Date;          (* [None] is [null] *)
  tags : list string;
  createdAt : Date;
  updatedAt : Date
}.

(** The [dueDate] property of a payload: undefined, defined but falsy
    ([null], the empty string), or a value that [new Date(...)] turns into
    the given date (possibly the Invalid Date). *)
Inductive DueDateField :=
| DueUndefined
| DueFalsy
| DueValue (parsed : Date).

(** The [tags] property of a payload: undefined, a value that is not an
    array, or an array of strings. *)
Inductive TagsField :=
| TagsUndefined
| TagsNotArray
| TagsArray (elems : list string).

(** The object handed to [new Task(data)] and to [task.update(data)]. A
    [None] is a property that is undefined (or, for the constructor, any
    falsy value). The text properties hold texts, and [createdAt], which
    only other code can supply, holds a Date object. *)
Record Payload := mkPayload {
  p_id : option string;
  p_title : option string;
  p_description : option string;
  p_status : option string;
  p_priority : option string;
  p_dueDate : DueDateField;
  p_tags : TagsField;
  p_createdAt : option Date
}.

Definition validStatuses : list string := ["todo"; "in_progress"; "completed"].
Definition validPriorities : list string := ["low"; "medium"; "high"].

(** [validate()]: every violated rule is collected, then one error is
    thrown with all of them. [tags] is an array by construction, so the
    rule on tags never fires. *)
Definition violations (t : Task) : list Violation :=
  (if negb (Js.truthy (title t)) || Js.blank (title t) then [TitleRequired] else []) ++
  (if (100 <? Z.of_nat (String.length (title t))) then [TitleTooLong] else []) ++
  (if Js.truthy (description t) && (500 <? Z.of_nat (String.length (description t)))
   then [DescriptionTooLong] else []) ++
  (if negb (Js.arr_includes validStatuses (status t)) then [StatusInvalid] else []) ++
  (if negb (Js.arr_includes validPriorities (priority t)) then [PriorityInvalid] else []) ++
  (match dueDate t with
   | Some d => if Date_isNaN d then [DueDateInvalid] else []
   | None => []
   end).

Definition validate (t : Task) : result unit :=
  match violations t with
  | [] => Ok tt
  | errors => Err (ValidationError errors)
  end.

(** [new Task(data)]. [uuid] is what [uuidv4()] returns, [now0] and
    [now1] are the clock readings of the two [new Date()] calls (the first
    one is made only when the payload has no [createdAt]). *)
Definition Task_new (uuid : string) (now0 now1 : Z) (data : Payload) : result Task :=
  let this := {|
    id := Js.or_else (p_id data) uuid;
    title := Js.or_else (p_title data) EmptyString;
    description := Js.or_else (p_description data) EmptyString;
    status := Js.or_else (p_status data) "todo";
    priority := Js.or_else (p_priority data) "medium";
    dueDate := match p_dueDate data with
               | DueValue d => Some d
               | _ => None
               end;
    tags := match p_tags data with
            | TagsArray l => l
            | _ => []
            end;
    createdAt := match p_createdAt data with
                 | Some d => d
                 | None => Instant now0
                 end;
    updatedAt := Instant now1
  |} in
  let* _ := validate this in Ok this.

(** [task.update(data)] assigns the fields of [this] one after the other,
    refreshes [updatedAt], and only then validates. The object is mutated
    in place, so the function returns the state of [this] after the call
    together with the outcome: the mutated state is there whether
    [validate] throws or not. *)
Definition Task_update (now : Z) (data : Payload) (this : Task) : Task * result unit :=
  let this1 := {|
    id := id this;
    title := match p_title data with Some s => s | None => title this end;
    description := match p_description data with Some s => s | None => description this end;
    status := match p_status data with Some s => s | None => status this end;
    priority := match p_priority data with Some s => s | None => priority this end;
    dueDate := match p_dueDate data with
               | DueUndefined => dueDate this
               | DueFalsy => None
               | DueValue d => Some d
               end;
    tags := match p_tags data with
            | TagsUndefined => tags this
            | TagsNotArray => []
            | TagsArray l => l
            end;
    createdAt := createdAt this;
    updatedAt := Instant now
  |} in
  (this1, validate this1).

(** The plain object of [toJSON()]; the three timestamps are ISO texts,
    kept as the instants they denote. *)
Record TaskJSON := mkTaskJSON {
  j_id : string;
  j_title : string;
  j_description : string;
  j_status : string;
  j_priority : string;
  j_dueDate : option Z;
  j_tags : list string;
  j_createdAt : Z;
  j_updatedAt : Z
}.

Definition toJSON (t : Task) : result TaskJSON :=
  let* due := match dueDate t with
              | Some d => let* ms := toISOString d in Ok (Some ms)
              | None => Ok None
              end in
  let* created := toISOString (createdAt t) in
  let* updated := toISOString (updatedAt t) in
  Ok {|
    j_id := id t;
    j_title := title t;
    j_description := description t;
    j_status := status t;
    j_priority := priority t;
    j_dueDate := due;
    j_tags := tags t;
    j_createdAt := created;
    j_updatedAt := updated
  |}.

(** [isOverdue()], with [now] the reading of its [new Date()]. *)
Definition isOverdue (now : Z) (t : Task) : bool :=
  match dueDate t with
  | None => false
  | Some d =>
      if String.eqb (status t) "completed" then false
      else Date_ltb d (Instant now)
  end.

(** ** JavaScript containers *)

(** [arr.sort(compare)]. The language requires a stable sort: [a] comes
    before [b] when [compare(a, b) < 0], after it when
    [compare(a, b) > 0], and in the order of the input otherwise. For a
    comparator that is a consistent ordering this determines the result,
    which the stable insertion sort below computes. *)
Fixpoint insert_sorted {A} (compare : A -> A -> Z) (x : A) (l : list A) : list A :=
  match l with
  | [] => [x]
  | y :: l' => if 0 <? compare x y then y :: insert_sorted compare x l' else x :: l
  end.

Definition Array_sort {A} (compare : A -> A -> Z) (arr : list A) : list A :=
  fold_right (insert_sorted compare) [] arr.

(** A [Map] with string keys, in insertion order. *)
Module Map.

Definition t (V : Type) := list (string * V).

Fixpoint get {V} (m : t V) (k : string) : option V :=
  match m with
  | [] => None
  | (k', v) :: m' => if String.eqb k' k then Some v else get m' k
  end.

(** [m.set(k, v)]: an existing key keeps its position and takes the new
    value, a new key is added at the end. *)
Fixpoint set {V} (m : t V) (k : string) (v : V) : t V :=
  match m with
  | [] => [(k, v)]
  | (k', v') :: m' =>
      if String.eqb k' k then (k, v) :: m' else (k', v') :: set m' k v
  end.

Fixpoint delete {V} (m : t V) (k : string) : t V :=
  match m with
  | [] => []
  | (k', v) :: m' => if String.eqb k' k then m' else (k', v) :: delete m' k
  end.

Definition keys {V} (m : t V) : list string := map fst m.
Definition values {V} (m : t V) : list V := map snd m.
Definition size {V} (m : t V) : nat := length m.
Definition clear {V} (m : t V) : t V := [].

End Map.

(** A value found in an object that the code uses as a table of counters:
    a number, NaN, or the text that [+] yields once one operand is not a
    number. *)
Inductive Counter :=
| Count (n : nat)
| NaN
| Text.

(** The property names that every plain object inherits from
    [Object.prototype]; reading one of them on [{}] yields a function (an
    object for [__proto__]), not [undefined]. *)
Definition Object_prototype_names : list string :=
  ["constructor"; "__defineGetter__"; "__defineSetter__"; "hasOwnProperty";
   "__lookupGetter__"; "__lookupSetter__"; "isPrototypeOf";
   "propertyIsEnumerable"; "toString"; "valueOf"; "__proto__";
   "toLocaleString"].

Definition inherited (k : string) : bool := Js.arr_includes Object_prototype_names k.

(** [obj[k] = v] for a primitive [v]: an own property is created or
    overwritten, except that [__proto__] is an accessor whose setter
    ignores primitives. *)
Definition assign (obj : gmap string Counter) (k : string) (v : Counter)
  : gmap string Counter :=
  if String.eqb k "__proto__" then obj else <[k := v]> obj.

(** [obj[k]++]: an own number is incremented; anything else (undefined, an
    inherited function, NaN) converts to NaN. *)
Definition increment (obj : gmap string Counter) (k : string) : gmap string Counter :=
  match obj !! k with
  | Some (Count n) => assign obj k (Count (n + 1))
  | _ => assign obj k NaN
  end.

(** [obj[k] = (obj[k] || 0) + 1]: a missing or zero counter becomes 1, an
    own number is incremented, and an inherited function is truthy, so
    that [+] concatenates text. *)
Definition bump (obj : gmap string Counter) (k : string) : gmap string Counter :=
  match obj !! k with
  | Some (Count n) => assign obj k (Count (n + 1))
  | Some NaN => assign obj k (Count 1)
  | Some Text => assign obj k Text
  | None => if inherited k then assign obj k Text else assign obj k (Count 1)
  end.

(** ** The task service ([backend/services/taskService.js]) *)

(** The [filters] argument of [getTasks]; [None] is an undefined
    property. *)
Record Filters := mkFilters {
  f_status : option string;
  f_priority : option string;
  f_search : option string;
  f_tags : option (list string);
  f_sortBy : option string;
  f_sortOrder : option string
}.

(** The [pagination] argument of [getTasks]. *)
Record Pagination := mkPagination {
  p_page : option Z;
  p_limit : option Z
}.

(** [getTasks()] called without arguments. *)
Definition noFilters : Filters := mkFilters None None None None None None.
Definition noPagination : Pagination := mkPagination None None.

Record PageInfo := mkPageInfo {
  page : Z;
  limit : Z;
  total : Z;
  totalPages : Z;
  hasNext : bool;
  hasPrev : bool
}.

Record TaskPage := mkTaskPage {
  tasks : list TaskJSON;
  pagination : PageInfo
}.

(** [o || d] for a numeric property: undefined, 0 and NaN are falsy. *)
Definition num_or (o : option Z) (d : Z) : Z :=
  match o with
  | Some n => if n =? 0 then d else n
  | None => d
  end.

(** The four filters of [getTasks], each applied only when its parameter
    is truthy. *)
Definition filterByStatus (filters : Filters) (l : list Task) : list Task :=
  match f_status filters with
  | Some s => if Js.truthy s then List.filter (fun task => String.eqb (status task) s) l else l
  | None => l
  end.

Definition filterByPriority (filters : Filters) (l : list Task) : list Task :=
  match f_priority filters with
  | Some p => if Js.truthy p then List.filter (fun task => String.eqb (priority task) p) l else l
  | None => l
  end.

Definition matchesSearch (searchTerm : string) (task : Task) : bool :=
  Js.includes (Js.toLowerCase (title task)) searchTerm ||
  Js.includes (Js.toLowerCase (description task)) searchTerm ||
  existsb (fun tag => Js.includes (Js.toLowerCase tag) searchTerm) (tags task).

Definition filterBySearch (filters : Filters) (l : list Task) : list Task :=
  match f_search filters with
  | Some s =>
      if Js.truthy s
      then let searchTerm := Js.toLowerCase s in List.filter (matchesSearch searchTerm) l
      else l
  | None => l
  end.

Definition matchesTags (wanted : list string) (task : Task) : bool :=
  existsb (fun tag => Js.arr_includes (tags task) tag) wanted.

Definition filterByTags (filters : Filters) (l : list Task) : list Task :=
  match f_tags filters with
  | Some wanted =>
      if (0 <? Z.of_nat (length wanted)) then List.filter (matchesTags wanted) l else l
  | None => l
  end.

Definition applyFilters (filters : Filters) (l : list Task) : list Task :=
  filterByTags filters (filterBySearch filters (filterByPriority filters (filterByStatus filters l))).

(** The values that the comparator of [getTasks] compares with [<] and
    [>]: lower-cased titles, priority ranks, or dates. *)
Inductive SortKey :=
| KeyText (s : string)
| KeyRank (n : Z)
| KeyDate (d : Date).

(** [a < b] on two keys of the same kind. *)
Definition key_ltb (a b : SortKey) : bool :=
  match a, b with
  | KeyText s, KeyText t => String.ltb s t
  | KeyRank m, KeyRank n => m <? n
  | KeyDate d, KeyDate e => Date_ltb d e
  | _, _ => false
  end.

(** [priorityOrder[p] || 0] with [priorityOrder = { high: 3, medium: 2,
    low: 1 }]. [validate] confines [p] to these three names; any other
    text is ranked 0. *)
Definition priorityOrder (p : string) : Z :=
  if String.eqb p "high" then 3
  else if String.eqb p "medium" then 2
  else if String.eqb p "low" then 1
  else 0.

Section Backend.

(** The server's time zone at local midnight of 31 December 9999, as
    [getTimezoneOffset()] gives it: the minutes by which UTC is ahead of
    local time. *)
Variable tzOffset : Z.

(** [new Date(9999, 11, 31)]: local midnight of 31 December 9999. *)
Definition farFuture : Date := Instant (253402214400000 + tzOffset * 60000).

(** The [switch] of the comparator, with its [default] branch. *)
Definition sortKey (sortBy : string) (a : Task) : SortKey :=
  if String.eqb sortBy "title" then KeyText (Js.toLowerCase (title a))
  else if String.eqb sortBy "priority" then KeyRank (priorityOrder (priority a))
  else if String.eqb sortBy "dueDate" then
    KeyDate (match dueDate a with Some d => d | None => farFuture end)
  else if String.eqb sortBy "createdAt" then KeyDate (createdAt a)
  else KeyText (Js.toLowerCase (title a)).

Definition isDesc (filters : Filters) : bool :=
  match f_sortOrder filters with
  | Some o => String.eqb o "desc"
  | None => false
  end.

Definition compareTasks (filters : Filters) (sortBy : string) (a b : Task) : Z :=
  let aValue := sortKey sortBy a in
  let bValue := sortKey sortBy b in
  if key_ltb aValue bValue then (if isDesc filters then 1 else -1)
  else if key_ltb bValue aValue then (if isDesc filters then -1 else 1)
  else 0.

Definition applySort (filters : Filters) (l : list Task) : list Task :=
  match f_sortBy filters with
  | Some sortBy =>
      if Js.truthy sortBy then Array_sort (compareTasks filters sortBy) l else l
  | None => l
  end.

(** [getTasks(filters, pagination)] on the tasks held by the service. *)
Definition getTasks (store : Map.t Task) (filters : Filters) (pagination : Pagination)
  : result TaskPage :=
  let filteredTasks := applySort filters (applyFilters filters (Map.values store)) in
  let page := num_or (p_page pagination) 1 in
  let limit := num_or (p_limit pagination) 10 in
  let startIndex := (page - 1) * limit in
  let endIndex := startIndex + limit in
  let paginatedTasks := Js.slice filteredTasks startIndex endIndex in
  let* jsons := mapM toJSON paginatedTasks in
  Ok {|
    tasks := jsons;
    pagination := {|
      page := page;
      limit := limit;
      total := Z.of_nat (length filteredTasks);
      totalPages := Js.ceil_div (Z.of_nat (length filteredTasks)) limit;
      hasNext := endIndex <? Z.of_nat (length filteredTasks);
      hasPrev := 1 <? page
    |}
  |}.

(** [createTask(taskData)]. The task is put in the map before it is
    serialised. *)
Definition createTask (uuid : string) (now0 now1 : Z) (taskData : Payload)
    (store : Map.t Task) : Map.t Task * result TaskJSON :=
  match Task_new uuid now0 now1 taskData with
  | Err e => (store, Err e)
  | Ok task => (Map.set store (id task) task, toJSON task)
  end.

Definition getTaskById (store : Map.t Task) (id : string) : result TaskJSON :=
  match Map.get store id with
  | None => Err NotFoundError
  | Some task => toJSON task
  end.

(** [updateTask(id, updateData)]. [task] is the object that the map
    holds, not a copy: what [task.update] assigns is visible through the
    map at once, and stays there when [validate] throws and the
    [this.tasks.set] that follows is skipped. *)
Definition updateTask (now : Z) (id : string) (updateData : Payload)
    (store : Map.t Task) : Map.t Task * result TaskJSON :=
  match Map.get store id with
  | None => (store, Err NotFoundError)
  | Some task =>
      let '(task', outcome) := Task_update now updateData task in
      let mutated := Map.set store id task' in
      match outcome with
      | Err e => (mutated, Err e)
      | Ok _ => (Map.set mutated id task', toJSON task')
      end
  end.

Definition deleteTask (id : string) (store : Map.t Task) : Map.t Task * result unit :=
  match Map.get store id with
  | None => (store, Err NotFoundError)
  | Some _ => (Map.delete store id, Ok tt)
  end.

Definition clearAllTasks (store : Map.t Task) : Map.t Task := Map.clear store.

(** Rounding of a real number to the nearest binary64, the arithmetic of
    JavaScript numbers. Integers below 2^53 are represented exactly. *)
Variable fl : Q -> Q.

(** What [completionRate] can be: the number 0, or the text that
    [toFixed(1)] produces, which is the decimal writing of [tenths / 10]
    with one digit after the point, or the text of NaN. *)
Inductive Rate :=
| RateZero
| RateFixed (tenths : Z)
| RateNaN.

(** [x.toFixed(1)] for [x >= 0]: the integer [n] for which [n / 10] is
    closest to the exact value of [x], the larger one when two are
    equally close. *)
Definition toFixed1 (x : Q) : Z := Qfloor ((x * 10 + (1 # 2))%Q).

(** [total > 0 ? (completed / total * 100).toFixed(1) : 0] *)
Definition completionRateOf (completed : Counter) (total : nat) : Rate :=
  if (0 <? total)%nat then
    match completed with
    | Count c =>
        RateFixed (toFixed1 (fl (fl (inject_Z (Z.of_nat c) / inject_Z (Z.of_nat total)) * 100))%Q)
    | _ => RateNaN
    end
  else RateZero.

Record Stats := mkStats {
  s_total : nat;
  byStatus : gmap string Counter;
  byPriority : gmap string Counter;
  overdue : nat;
  completionRate : Rate
}.

(** The body of the [forEach] of [getTaskStats]; [now] is the clock
    reading of the [isOverdue()] call made for this task. *)
Definition countTask (acc : gmap string Counter * gmap string Counter * nat)
    (entry : Z * Task) : gmap string Counter * gmap string Counter * nat :=
  let '(statusCounts, priorityCounts, overdueCount) := acc in
  let '(now, task) := entry in
  (increment statusCounts (status task),
   increment priorityCounts (priority task),
   if isOverdue now task then S overdueCount else overdueCount).

Definition initialStatusCounts : gmap string Counter :=
  <["completed" := Count 0]> (<["in_progress" := Count 0]> (<["todo" := Count 0]> ∅)).

Definition initialPriorityCounts : gmap string Counter :=
  <["high" := Count 0]> (<["medium" := Count 0]> (<["low" := Count 0]> ∅)).

(** [getTaskStats()]; [clock i] is the reading of the clock made for the
    task at position [i]. *)
Definition getTaskStats (clock : nat -> Z) (store : Map.t Task) : Stats :=
  let tasks := Map.values store in
  let totalTasks := length tasks in
  let '(statusCounts, priorityCounts, overdueCount) :=
    fold_left countTask (imap (fun i task => (clock i, task)) tasks)
      (initialStatusCounts, initialPriorityCounts, 0%nat) in
  {|
    s_total := totalTasks;
    byStatus := statusCounts;
    byPriority := priorityCounts;
    overdue := overdueCount;
    completionRate :=
      completionRateOf (default NaN (statusCounts !! "completed")) totalTasks
  |}.

(** ** The aggregation handlers ([backend/routes/stats.js]) *)

Record TagStats := mkTagStats {
  totalTags : nat;
  tagCounts : gmap string Counter
}.

(** The inner [forEach] of the tags handler, over the tags of one task. *)
Definition countTags (tagCounts : gmap string Counter) (task : TaskJSON)
  : gmap string Counter :=
  fold_left bump (j_tags task) tagCounts.

(** [GET /api/stats/tags]. The tasks come from [getTasks()] called without
    arguments. The response also carries [tagStats], the entries of
    [tagCounts] ordered by decreasing count. *)
Definition statsTags (store : Map.t Task) : result TagStats :=
  let* result := getTasks store noFilters noPagination in
  let tagCounts := fold_left countTags (tasks result) ∅ in
  Ok {| totalTags := size tagCounts; tagCounts := tagCounts |}.

Record DayStats := mkDayStats {
  d_total : nat;
  d_completed : nat
}.

(** A calendar day in UTC, which the code writes as the first ten
    characters of an ISO timestamp: the number of whole days since the
    epoch. *)
Definition utcDay (ms : Z) : Z := ms / 86400000.

(** The body of the [forEach] of the completion-trend handler. *)
Definition countDay (tasksByDate : gmap Z DayStats) (task : TaskJSON) : gmap Z DayStats :=
  let date := utcDay (j_createdAt task) in
  let stats := default (mkDayStats 0 0) (tasksByDate !! date) in
  <[date := {|
     d_total := S (d_total stats);
     d_completed :=
       if String.eqb (j_status task) "completed"
       then S (d_completed stats) else d_completed stats
   |}]> tasksByDate.

Record TrendRow := mkTrendRow {
  date : Z;
  r_total : nat;
  r_completed : nat;
  r_completionRate : Rate
}.

Record Trend := mkTrend {
  trendData : list TrendRow;
  totalDays : nat
}.

(** [GET /api/stats/completion-trend]. The rows are the entries of
    [tasksByDate] sorted by date; the comparator subtracts two dates,
    which has the sign of the difference of the days, and the dates are
    distinct, so the order in which [Object.entries] lists them does not
    show in the result. *)
Definition statsCompletionTrend (store : Map.t Task) : result Trend :=
  let* result := getTasks store noFilters noPagination in
  let tasksByDate := fold_left countDay (tasks result) ∅ in
  let trendData :=
    Array_sort (fun a b => date a - date b)
      (map (fun '(date, stats) =>
              {| date := date;
                 r_total := d_total stats;
                 r_completed := d_completed stats;
                 r_completionRate := completionRateOf (Count (d_completed stats)) (d_total stats) |})
           (map_to_list tasksByDate)) in
  Ok {| trendData := trendData; totalDays := length trendData |}.

End Backend.

(** ** More of the Task model *)



(** ** More of the aggregation handlers *)

(** What a handler sends: [res.json(body)], or an error answer with its
    status code. *)
Inductive Response (A : Type) :=
| Json (body : A)
| Failure (code : Z).
Arguments Json {A} body.
Arguments Failure {A} code.

Record OverdueBody := mkOverdueBody {
  o_count : nat;
  o_tasks : list TaskJSON
}.

Record GroupBody := mkGroupBody {
  g_key : string;
  g_count : nat;
  g_tasks : list TaskJSON
}.

(** The callback of the filter of [GET /api/stats/overdue], on a
    serialised task; [now] is the reading of its [new Date()]. *)
Definition overdueJSON (now : Z) (task : TaskJSON) : bool :=
  match j_dueDate task with
  | None => false
  | Some due =>
      if String.eqb (j_status task) "completed" then false else due <? now
  end.

Section Handlers.

Variable tzOffset : Z.

(** [GET /api/stats/overdue]; [clock i] is the reading of the clock made
    for the task at position [i] of the page. *)
Definition statsOverdue (clock : nat -> Z) (store : Map.t Task) : Response OverdueBody :=
  match getTasks tzOffset store noFilters noPagination with
  | Err _ => Failure 500
  | Ok result =>
      let overdueTasks :=
        map snd (List.filter (fun '(now, task) => overdueJSON now task)
                   (imap (fun i task => (clock i, task)) (tasks result))) in
      Json {| o_count := length overdueTasks; o_tasks := overdueTasks |}
  end.

(** [GET /api/stats/status/:status] *)
Definition statsByStatus (status : string) (store : Map.t Task) : Response GroupBody :=
  if negb (Js.arr_includes validStatuses status) then Failure 400
  else
    match getTasks tzOffset store
            (mkFilters (Some status) None None None None None) noPagination with
    | Err _ => Failure 500
    | Ok result =>
        Json {| g_key := status; g_count := length (tasks result); g_tasks := tasks result |}
    end.

(** [GET /api/stats/priority/:priority] *)
Definition statsByPriority (priority : string) (store : Map.t Task) : Response GroupBody :=
  if negb (Js.arr_includes validPriorities priority) then Failure 400
  else
    match getTasks tzOffset store
            (mkFilters None (Some priority) None None None None) noPagination with
    | Err _ => Failure 500
    | Ok result =>
        Json {| g_key := priority; g_count := length (tasks result); g_tasks := tasks result |}
    end.

End Handlers.

(** ** The client's task state (the reducer of the task context) *)

Module TaskContext.

Record FilterState := mkFilterState {
  fs_status : string;
  fs_priority : string;
  fs_search : string;
  fs_tags : list string
}.

(** The [pagination] of the state. The server's answer also carries
    [hasNext] and [hasPrev], which the spreads of the reducer keep. *)
Record PageState := mkPageState {
  ps_page : Z;
  ps_limit : Z;
  ps_total : Z;
  ps_totalPages : Z;
  ps_hasNext : option bool;
  ps_hasPrev : option bool
}.

Record State := mkState {
  st_tasks : list TaskJSON;
  st_loading : bool;
  st_error : option string;          (* [None] is [null] *)
  st_filters : FilterState;
  st_pagination : PageState;
  st_sortBy : string;
  st_sortOrder : string
}.

Definition initialState : State :=
  {| st_tasks := [];
     st_loading := false;
     st_error := None;
     st_filters := mkFilterState EmptyString EmptyString EmptyString [];
     st_pagination := mkPageState 1 10 0 0 None None;
     st_sortBy := "createdAt";
     st_sortOrder := "desc" |}.

(** The payloads of [SET_FILTERS] and [SET_PAGINATION]: objects with some
    of the properties, spread over the current ones. *)
Record FilterPatch := mkFilterPatch {
  fp_status : option string;
  fp_priority : option string;
  fp_search : option string;
  fp_tags : option (list string)
}.

Record PagePatch := mkPagePatch {
  pp_page : option Z;
  pp_limit : option Z;
  pp_total : option Z;
  pp_totalPages : option Z
}.

Inductive Action :=
| SET_LOADING (payload : bool)
| SET_ERROR (payload : option string)
| SET_TASKS (payload : TaskPage)
| ADD_TASK (payload : TaskJSON)
| UPDATE_TASK (payload : TaskJSON)
| DELETE_TASK (payload : string)
| SET_FILTERS (payload : FilterPatch)
| SET_PAGINATION (payload : PagePatch)
| SET_SORT (sortBy sortOrder : string)
| CLEAR_ERROR
| OTHER.                             (* any other action type *)

Definition withTasks (state : State) (l : list TaskJSON) : State :=
  {| st_tasks := l;
     st_loading := st_loading state;
     st_error := st_error state;
     st_filters := st_filters state;
     st_pagination := st_pagination state;
     st_sortBy := st_sortBy state;
     st_sortOrder := st_sortOrder state |}.

Definition withPagination (state : State) (p : PageState) : State :=
  {| st_tasks := st_tasks state;
     st_loading := st_loading state;
     st_error := st_error state;
     st_filters := st_filters state;
     st_pagination := p;
     st_sortBy := st_sortBy state;
     st_sortOrder := st_sortOrder state |}.

Definition withTotal (p : PageState) (n : Z) : PageState :=
  {| ps_page := ps_page p;
     ps_limit := ps_limit p;
     ps_total := n;
     ps_totalPages := ps_totalPages p;
     ps_hasNext := ps_hasNext p;
     ps_hasPrev := ps_hasPrev p |}.

Definition taskReducer (state : State) (action : Action) : State :=
  match action with
  | SET_LOADING payload =>
      {| st_tasks := st_tasks state;
         st_loading := payload;
         st_error := if payload then None else st_error state;
         st_filters := st_filters state;
         st_pagination := st_pagination state;
         st_sortBy := st_sortBy state;
         st_sortOrder := st_sortOrder state |}
  | SET_ERROR payload =>
      {| st_tasks := st_tasks state;
         st_loading := false;
         st_error := payload;
         st_filters := st_filters state;
         st_pagination := st_pagination state;
         st_sortBy := st_sortBy state;
         st_sortOrder := st_sortOrder state |}
  | SET_TASKS payload =>
      {| st_tasks := tasks payload;
         st_loading := st_loading state;
         st_error := None;
         st_filters := st_filters state;
         st_pagination :=
           {| ps_page := page (pagination payload);
              ps_limit := limit (pagination payload);
              ps_total := total (pagination payload);
              ps_totalPages := totalPages (pagination payload);
              ps_hasNext := Some (hasNext (pagination payload));
              ps_hasPrev := Some (hasPrev (pagination payload)) |};
         st_sortBy := st_sortBy state;
         st_sortOrder := st_sortOrder state |}
  | ADD_TASK payload =>
      withPagination (withTasks state (payload :: st_tasks state))
        (withTotal (st_pagination state) (ps_total (st_pagination state) + 1))
  | UPDATE_TASK payload =>
      withTasks state
        (map (fun task => if String.eqb (j_id task) (j_id payload) then payload else task)
             (st_tasks state))
  | DELETE_TASK payload =>
      withPagination
        (withTasks state
           (List.filter (fun task => negb (String.eqb (j_id task) payload)) (st_tasks state)))
        (withTotal (st_pagination state) (ps_total (st_pagination state) - 1))
  | SET_FILTERS payload =>
      {| st_tasks := st_tasks state;
         st_loading := st_loading state;
         st_error := st_error state;
         st_filters :=
           {| fs_status := default (fs_status (st_filters state)) (fp_status payload);
              fs_priority := default (fs_priority (st_filters state)) (fp_priority payload);
              fs_search := default (fs_search (st_filters state)) (fp_search payload);
              fs_tags := default (fs_tags (st_filters state)) (fp_tags payload) |};
         st_pagination :=
           {| ps_page := 1;
              ps_limit := ps_limit (st_pagination state);
              ps_total := ps_total (st_pagination state);
              ps_totalPages := ps_totalPages (st_pagination state);
              ps_hasNext := ps_hasNext (st_pagination state);
              ps_hasPrev := ps_hasPrev (st_pagination state) |};
         st_sortBy := st_sortBy state;
         st_sortOrder := st_sortOrder state |}
  | SET_PAGINATION payload =>
      withPagination state
        {| ps_page := default (ps_page (st_pagination state)) (pp_page payload);
           ps_limit := default (ps_limit (st_pagination state)) (pp_limit payload);
           ps_total := default (ps_total (st_pagination state)) (pp_total payload);
           ps_totalPages := default (ps_totalPages (st_pagination state)) (pp_totalPages payload);
           ps_hasNext := ps_hasNext (st_pagination state);
           ps_hasPrev := ps_hasPrev (st_pagination state) |}
  | SET_SORT sortBy sortOrder =>
      {| st_tasks := st_tasks state;
         st_loading := st_loading state;
         st_error := st_error state;
         st_filters := st_filters state;
         st_pagination := st_pagination state;
         st_sortBy := sortBy;
         st_sortOrder := sortOrder |}
  | CLEAR_ERROR =>
      {| st_tasks := st_tasks state;
         st_loading := st_loading state;
         st_error := None;
         st_filters := st_filters state;
         st_pagination := st_pagination state;
         st_sortBy := st_sortBy state;
         st_sortOrder := st_sortOrder state |}
  | OTHER => state
  end.

End TaskContext.

(** * Vocabulary of the properties *)

(** ** What the statements speak of *)

(** The payload's own [createdAt], when there is one, is not later than
    the time of the creation. *)
Definition createdAt_not_later (data : Payload) (now : Z) : Prop :=
  forall c, p_createdAt data = Some (Instant c) -> c <= now.

(** A task that [toJSON] can serialise: its dates are instants. Every task
    that passed [validate] with a [createdAt] read from the clock is
    one. *)
Definition serialisable (t : Task) : Prop := exists j, toJSON t = Ok j.

(** The sort fields and orders that the query contract lists. *)
Definition knownSortFields : list string := ["title"; "priority"; "dueDate"; "createdAt"].
Definition knownSortOrders : list string := ["asc"; "desc"].

Definition recognisedSort (filters : Filters) : Prop :=
  (forall s, f_sortBy filters = Some s -> In s knownSortFields) /\
  (forall o, f_sortOrder filters = Some o -> In o knownSortOrders).

(** What [getTasks] makes of the sort parameters it is given: an empty
    [sortBy] is no sort at all, any other unlisted [sortBy] is [title],
    and every [sortOrder] but [desc] is [asc]. *)
Definition coerceSort (filters : Filters) : Filters :=
  {| f_status := f_status filters;
     f_priority := f_priority filters;
     f_search := f_search filters;
     f_tags := f_tags filters;
     f_sortBy :=
       match f_sortBy filters with
       | Some s =>
           if Js.truthy s
           then Some (if Js.arr_includes knownSortFields s then s else "title")
           else None
       | None => None
       end;
     f_sortOrder := Some (if isDesc filters then "desc" else "asc") |}.

(** A filter specification within the query contract. *)
Definition validFilters (filters : Filters) : Prop :=
  (forall s, f_status filters = Some s -> In s validStatuses) /\
  (forall p, f_priority filters = Some p -> In p validPriorities) /\
  (forall s, f_search filters = Some s ->
     (1 <= String.length s)%nat /\ (String.length s <= 100)%nat).

(** [term] occurs in [field] when the case of letters is ignored. *)
Definition occursIgnoringCase (term field : string) : Prop :=
  exists before after,
    Js.toLowerCase field = (before ++ Js.toLowerCase term ++ after)%string.

(** The conjunction of the filters that a specification makes active; the
    filter on tags is active when at least one tag is requested. *)
Definition satisfies (filters : Filters) (j : TaskJSON) : Prop :=
  (forall s, f_status filters = Some s -> j_status j = s) /\
  (forall p, f_priority filters = Some p -> j_priority j = p) /\
  (forall term, f_search filters = Some term ->
     occursIgnoringCase term (j_title j) \/
     occursIgnoringCase term (j_description j) \/
     exists tag, In tag (j_tags j) /\ occursIgnoringCase term tag) /\
  (forall wanted, f_tags filters = Some wanted -> wanted <> [] ->
     exists tag, In tag wanted /\ In tag (j_tags j)).

(** What a task that went through the four filters of [getTasks] is known
    to satisfy, in the terms of the code. *)
Definition passes (filters : Filters) (t : Task) : Prop :=
  (forall s, f_status filters = Some s -> s <> EmptyString -> status t = s) /\
  (forall p, f_priority filters = Some p -> p <> EmptyString -> priority t = p) /\
  (forall term, f_search filters = Some term -> term <> EmptyString ->
     matchesSearch (Js.toLowerCase term) t = true) /\
  (forall wanted, f_tags filters = Some wanted -> wanted <> [] ->
     matchesTags wanted t = true).

(** The order of two elements by an integer key. *)
Definition keyOrder {A} (key : A -> Z) (x y : A) : Prop := key x <= key y.

(** The time value that the [dueDate] comparator gives to a task whose
    due date, if any, is an instant. *)
Definition dueKey (tz : Z) (t : Task) : Z :=
  match dueDate t with
  | Some (Instant d) => d
  | Some InvalidDate => 0
  | None => 253402214400000 + tz * 60000
  end.

Definition dueDateValid (t : Task) : Prop := dueDate t <> Some InvalidDate.

(** The number of times that [tag] occurs in the tag lists of the tasks,
    and the number of tasks that carry it. *)
Definition occurrences (tag : string) (l : list Task) : nat :=
  list_sum (map (fun t => count_occ string_dec (tags t) tag) l).

Definition carriers (tag : string) (l : list Task) : nat :=
  length (List.filter (fun t => Js.arr_includes (tags t) tag) l).

(** The entry of a table of counters for a tag counted [n] times: no
    entry at all when [n] is zero. *)
Definition asCount (n : nat) : option Counter :=
  match n with
  | O => None
  | S _ => Some (Count n)
  end.

(** The number of tasks whose status is [completed]. *)
Definition completedCount (l : list Task) : nat :=
  length (List.filter (fun t => String.eqb (status t) "completed") l).

(** The standard model of binary64 arithmetic: on zero and on the range
    of the normal numbers, rounding to nearest moves a non-negative real
    by at most the fraction 2^-53 of its value. *)
Definition unitRoundoff : Q := 1 # 9007199254740992.
Definition minNormal : Q := 1 # (2 ^ 1022).
Definition maxFinite : Q := inject_Z (2 ^ 1023).

Definition roundsToNearest (fl : Q -> Q) : Prop :=
  forall x : Q,
    (x == 0 \/ (minNormal <= x /\ x <= maxFinite))%Q ->
    (Qabs (fl x - x) <= unitRoundoff * x)%Q.

(** ** Sample data *)

(** The first two sample tasks of [initializeSampleData], with fixed
    values for their ids and timestamps. *)
Definition otherTask : Task :=
  {| id := "f47ac10b-58cc-4372-a567-0e02b2c3d479";
     title := "Complete project documentation";
     description := "Write comprehensive documentation for the task management API";
     status := "in_progress";
     priority := "high";
     dueDate := Some (Instant 1700604800000);
     tags := ["documentation"; "api"];
     createdAt := Instant 1700000000000;
     updatedAt := Instant 1700000000000 |}.

Definition sampleTask : Task :=
  {| id := "7c9e6679-7425-40de-944b-e07fc1f90ae7";
     title := "Review code changes";
     description := "Perform code review for the latest pull request";
     status := "todo";
     priority := "medium";
     dueDate := Some (Instant 1700172800000);
     tags := ["code-review"; "quality"];
     createdAt := Instant 1700000000000;
     updatedAt := Instant 1700000000000 |}.

(** A task due in the last second of 31 December 9999 (UTC), and a task
    without a due date. *)
Definition lateTask : Task :=
  {| id := "0a4d55a8-d6f1-4b1c-9c53-0a9a5d5a3f11";
     title := "Open the time capsule";
     description := EmptyString;
     status := "todo";
     priority := "low";
     dueDate := Some (Instant 253402300799000);
     tags := [];
     createdAt := Instant 1700000000000;
     updatedAt := Instant 1700000000000 |}.

Definition undatedTask : Task :=
  {| id := "5f2b7c1e-3d84-4e0a-8a6b-c1d2e3f4a5b6";
     title := "Tidy the backlog";
     description := EmptyString;
     status := "todo";
     priority := "low";
     dueDate := None;
     tags := [];
     createdAt := Instant 1700000000001;
     updatedAt := Instant 1700000000001 |}.

(** Completed tasks told apart by a number, with one tag each. *)
Definition numberedTask (n : Z) (tag : string) (created : Z) : Task :=
  {| id := String (ascii_of_nat (Z.to_nat (96 + n))) "-task";
     title := "Numbered task";
     description := EmptyString;
     status := "completed";
     priority := "medium";
     dueDate := None;
     tags := [tag];
     createdAt := Instant created;
     updatedAt := Instant created |}.

Definition eleventhTask : Task := numberedTask 11 "rare" 1700172800000.

Definition sampleStore : Map.t Task := [(id sampleTask, sampleTask)].

Definition twoTasks : Map.t Task := [(id sampleTask, sampleTask); (id otherTask, otherTask)].

Definition threeTasks : Map.t Task := twoTasks ++ [(id eleventhTask, eleventhTask)].

(** Eleven valid tasks: ten created on the same day and tagged [common],
    then one created two days later and tagged [rare]. *)
Definition elevenTasks : Map.t Task :=
  map (fun t => (id t, t))
      (map (fun n => numberedTask n "common" (1700000000000 + n)) [1; 2; 3; 4; 5; 6; 7; 8; 9; 10]
       ++ [eleventhTask]).

(** [{ title: t }] *)
Definition titlePayload (t : string) : Payload :=
  mkPayload None (Some t) None None None DueUndefined TagsUndefined None.

(** [{ status: s }] *)
Definition statusPayload (s : string) : Payload :=
  mkPayload None None None (Some s) None DueUndefined TagsUndefined None.

(** [{ id: i, title: t }] *)
Definition idPayload (i t : string) : Payload :=
  mkPayload (Some i) (Some t) None None None DueUndefined TagsUndefined None.

(** [{ title: t, createdAt: d }] with [d] a Date object *)
Definition createdAtPayload (t : string) (d : Date) : Payload :=
  mkPayload None (Some t) None None None DueUndefined TagsUndefined (Some d).

(** [{ title: 'Call the client', tags: ['urgent', 'urgent'] }] *)
Definition repeatedTagPayload : Payload :=
  mkPayload None (Some "Call the client") None None None DueUndefined
            (TagsArray ["urgent"; "urgent"]) None.

(** [{ sortBy: by, sortOrder: order }] *)
Definition sortFilters (by_ order : string) : Filters :=
  mkFilters None None None None (Some by_) (Some order).

(** [{ status: 'in_progress', priority: 'high', search: 'API',
       tags: ['api', 'urgent'] }] *)
Definition searchFilters : Filters :=
  mkFilters (Some "in_progress") (Some "high") (Some "API") (Some ["api"; "urgent"])
            None None.

(** The collection of the scenarios of the specification, seen at the
    instant 1700000000000: T1 was due the day before, T2 is due the day
    after, T3 has no due date. *)
Definition scenarioTask (name st pr : string) (due : option Z) : Task :=
  {| id := name;
     title := name;
     description := EmptyString;
     status := st;
     priority := pr;
     dueDate := option_map Instant due;
     tags := [];
     createdAt := Instant 1699000000000;
     updatedAt := Instant 1699000000000 |}.

Definition scenarioStore : Map.t Task :=
  map (fun t => (id t, t))
      [scenarioTask "T1" "completed" "high" (Some 1699913600000);
       scenarioTask "T2" "todo" "low" (Some 1700086400000);
       scenarioTask "T3" "in_progress" "medium" None].

(** ** What the further statements speak of *)

(** A text made of white space only (the empty text is one). *)
Definition onlySpaces (s : string) : Prop :=
  forall c, In c (list_ascii_of_string s) -> Js.is_space c = true.

(** The rule of [validate] that each message stands for. *)
Definition violates (v : Violation) (t : Task) : Prop :=
  match v with
  | TitleRequired => onlySpaces (title t)
  | TitleTooLong => (100 < String.length (title t))%nat
  | DescriptionTooLong => (500 < String.length (description t))%nat
  | StatusInvalid => ~ In (status t) validStatuses
  | PriorityInvalid => ~ In (priority t) validPriorities
  | DueDateInvalid => dueDate t = Some InvalidDate
  end.

(** The calls that change the map of the service. *)
Inductive Op :=
| OpCreate (uuid : string) (now0 now1 : Z) (data : Payload)
| OpUpdate (now : Z) (key : string) (data : Payload)
| OpDelete (key : string)
| OpClear.

Definition step (store : Map.t Task) (op : Op) : Map.t Task :=
  match op with
  | OpCreate uuid now0 now1 data => fst (createTask uuid now0 now1 data store)
  | OpUpdate now key data => fst (updateTask now key data store)
  | OpDelete key => fst (deleteTask key store)
  | OpClear => clearAllTasks store
  end.

Definition run (ops : list Op) (store : Map.t Task) : Map.t Task :=
  fold_left step ops store.

(** A map as the language keeps it: no key twice; and as the service
    fills it: every task under its own id. *)
Definition wellKeyed (store : Map.t Task) : Prop :=
  List.NoDup (Map.keys store) /\
  Forall (fun entry => id (snd entry) = fst entry) store.

Definition allValid (store : Map.t Task) : Prop :=
  Forall (fun t => validate t = Ok tt) (Map.values store).

(** An update that [validate] rejects. *)
Definition rejectedUpdate (store : Map.t Task) (op : Op) : Prop :=
  match op with
  | OpUpdate now key data =>
      exists vs, snd (updateTask now key data store) = Err (ValidationError vs)
  | _ => False
  end.

(** The conjunction of the active filters, on a stored task. *)
Definition matches (filters : Filters) (t : Task) : Prop :=
  (forall s, f_status filters = Some s -> status t = s) /\
  (forall p, f_priority filters = Some p -> priority t = p) /\
  (forall term, f_search filters = Some term ->
     occursIgnoringCase term (title t) \/
     occursIgnoringCase term (description t) \/
     exists tag, In tag (tags t) /\ occursIgnoringCase term tag) /\
  (forall wanted, f_tags filters = Some wanted -> wanted <> [] ->
     exists tag, In tag wanted /\ In tag (tags t)).

(** The same filters with another search term. *)
Definition withSearch (filters : Filters) (term : string) : Filters :=
  {| f_status := f_status filters;
     f_priority := f_priority filters;
     f_search := Some term;
     f_tags := f_tags filters;
     f_sortBy := f_sortBy filters;
     f_sortOrder := f_sortOrder filters |}.




(** The number of tasks with a given status, with a given priority. *)
Definition countStatus (s : string) (l : list Task) : nat :=
  length (List.filter (fun t => String.eqb (status t) s) l).

Definition countPriority (p : string) (l : list Task) : nat :=
  length (List.filter (fun t => String.eqb (priority t) p) l).

(** The tasks that are overdue, each at the reading of the clock made
    for it. *)
Definition overdueAt (clock : nat -> Z) (l : list Task) : list (Z * Task) :=
  List.filter (fun '(now, t) => isOverdue now t) (imap (fun i t => (clock i, t)) l).

(** The tasks created on the UTC day [d], and the completed ones among
    them. *)
Definition createdOn (d : Z) (t : Task) : bool :=
  match createdAt t with
  | Instant ms => utcDay ms =? d
  | InvalidDate => false
  end.

Definition dayTotal (d : Z) (l : list Task) : nat :=
  length (List.filter (createdOn d) l).

Definition dayCompleted (d : Z) (l : list Task) : nat :=
  length (List.filter (fun t => createdOn d t && String.eqb (status t) "completed") l).

(** The entry of the table of days for a day with [n] tasks, [c] of them
    completed: no entry at all when [n] is zero. *)
Definition dayEntry (n c : nat) : option DayStats :=
  match n with
  | O => None
  | S _ => Some (mkDayStats n c)
  end.

(** The two sample tasks as the server sends them. *)
Definition sampleJSON : TaskJSON :=
  mkTaskJSON (id sampleTask) (title sampleTask) (description sampleTask)
             (status sampleTask) (priority sampleTask) (Some 1700172800000)
             (tags sampleTask) 1700000000000 1700000000000.

Definition otherJSON : TaskJSON :=
  mkTaskJSON (id otherTask) (title otherTask) (description otherTask)
             (status otherTask) (priority otherTask) (Some 1700604800000)
             (tags otherTask) 1700000000000 1700000000000.
(** * Properties *)

(** ** Facts about the containers *)

Module MapFacts.

Lemma get_set_eq {V} (m : Map.t V) k v : Map.get (Map.set m k v) k = Some v.
Proof.
  induction m as [|[k' v'] m IH]; simpl.
  - now rewrite String.eqb_refl.
  - destruct (String.eqb k' k) eqn:E; simpl.
    + now rewrite String.eqb_refl.
    + now rewrite E.
Qed.

Lemma set_present {V} (m : Map.t V) k v :
  is_Some (Map.get m k) ->
  Map.keys (Map.set m k v) = Map.keys m /\ Map.size (Map.set m k v) = Map.size m.
Proof.
  unfold Map.keys, Map.size.
  induction m as [|[k' v'] m IH]; simpl; intros [x Hx].
  - discriminate.
  - destruct (String.eqb k' k) eqn:E; simpl.
    + apply String.eqb_eq in E. subst. auto.
    + destruct IH as [IH1 IH2]; [eauto|]. now rewrite IH1, IH2.
Qed.

End MapFacts.

(** ** Creation and update *)

Lemma Task_new_id uuid now0 now1 data task :
  Task_new uuid now0 now1 data = Ok task -> id task = Js.or_else (p_id data) uuid.
Proof.
  unfold Task_new, bind. destruct (validate _); [|discriminate].
  intros [= <-]. reflexivity.
Qed.

Lemma Task_new_timestamps uuid now0 now1 data task :
  Task_new uuid now0 now1 data = Ok task ->
  createdAt task = match p_createdAt data with Some d => d | None => Instant now0 end /\
  updatedAt task = Instant now1.
Proof.
  unfold Task_new, bind. destruct (validate _); [|discriminate].
  intros [= <-]. split; reflexivity.
Qed.

Lemma toJSON_timestamps t j :
  toJSON t = Ok j ->
  createdAt t = Instant (j_createdAt j) /\ updatedAt t = Instant (j_updatedAt j).
Proof.
  unfold toJSON, bind.
  destruct (match dueDate t with Some d => _ | None => _ end); [|discriminate].
  destruct (createdAt t); simpl; [|discriminate].
  destruct (updatedAt t); simpl; [|discriminate].
  intros [= <-]. split; reflexivity.
Qed.

(** A failed creation leaves the map as it was: the constructor validates
    before [this.tasks.set] is reached. *)
Lemma createTask_rejected_untouched uuid now0 now1 data store e :
  Task_new uuid now0 now1 data = Err e ->
  createTask uuid now0 now1 data store = (store, Err e).
Proof. unfold createTask. now intros ->. Qed.

(** A failed update leaves in the map the record as [update] assigned it,
    with the refreshed [updatedAt]. *)
Lemma updateTask_rejected_mutated now k data store task e :
  Map.get store k = Some task ->
  validate (fst (Task_update now data task)) = Err e ->
  snd (updateTask now k data store) = Err e /\
  Map.get (fst (updateTask now k data store)) k = Some (fst (Task_update now data task)) /\
  updatedAt (fst (Task_update now data task)) = Instant now.
Proof.
  intros Hget Hval. unfold updateTask. rewrite Hget.
  unfold Task_update in *. simpl in *. rewrite Hval. simpl.
  rewrite MapFacts.get_set_eq. repeat split.
Qed.

(** C1 (code defect). Update is not atomic on failure: on the stored
    sample task, [updateTask] with the payload [{ status: 'bogus' }] throws
    the validation error, and the record held by the map has nevertheless
    taken the invalid status and a new [updatedAt]. *)
Theorem updateTask_failure_not_atomic :
  let store' :=
    fst (updateTask 1700000500000 (id sampleTask) (statusPayload "bogus") sampleStore) in
  validate sampleTask = Ok tt /\
  snd (updateTask 1700000500000 (id sampleTask) (statusPayload "bogus") sampleStore)
    = Err (ValidationError [StatusInvalid]) /\
  status <$> Map.get store' (id sampleTask) = Some "bogus" /\
  updatedAt <$> Map.get store' (id sampleTask) = Some (Instant 1700000500000) /\
  store' <> sampleStore.
Proof.
  vm_compute. repeat split; try reflexivity. discriminate.
Qed.

(** C10, as stated, fails on a payload whose [id] is the empty string:
    the payload contains an [id] field, and the task is stored under the
    fresh identifier. *)
Lemma createTask_empty_id_replaced :
  let data := idPayload EmptyString "Write the report" in
  let store' := fst (createTask "9b2e-fresh" 1700000600000 1700000600001 data sampleStore) in
  p_id data = Some EmptyString /\
  Map.get store' EmptyString = None /\
  id <$> Map.get store' "9b2e-fresh" = Some "9b2e-fresh" /\
  Map.size store' = S (Map.size sampleStore).
Proof. vm_compute. repeat split; reflexivity. Qed.

(** C10 (amended). When the payload of [createTask] has a non-empty [id]
    and the task passes validation, the task is stored under that very
    id; if the map already held a task with this id, the new task takes
    its place: the keys of the map, their order and their number are
    unchanged. *)
Theorem createTask_keeps_given_id uuid now0 now1 data store i task :
  p_id data = Some i ->
  i <> EmptyString ->
  Task_new uuid now0 now1 data = Ok task ->
  let store' := fst (createTask uuid now0 now1 data store) in
  id task = i /\
  Map.get store' i = Some task /\
  (is_Some (Map.get store i) ->
     Map.keys store' = Map.keys store /\ Map.size store' = Map.size store).
Proof.
  intros Hid Hne Hnew store'.
  assert (Ei : id task = i).
  { rewrite (Task_new_id _ _ _ _ _ Hnew), Hid. simpl. unfold Js.truthy.
    destruct (String.eqb i EmptyString) eqn:E; [|reflexivity].
    apply String.eqb_eq in E. contradiction. }
  subst store'. unfold createTask. rewrite Hnew. simpl. rewrite Ei.
  split; [reflexivity|]. split.
  - apply MapFacts.get_set_eq.
  - apply MapFacts.set_present.
Qed.

Lemma createTask_keeps_given_id_witness :
  let data := idPayload (id sampleTask) "Write the report" in
  let store' := fst (createTask "9b2e-fresh" 1700000600000 1700000600001 data sampleStore) in
  title <$> Map.get store' (id sampleTask) = Some "Write the report" /\
  Map.size store' = Map.size sampleStore.
Proof.
  pose (data := idPayload (id sampleTask) "Write the report").
  destruct (Task_new "9b2e-fresh" 1700000600000 1700000600001 data) as [task|] eqn:Hnew;
    [|vm_compute in Hnew; discriminate].
  destruct (createTask_keeps_given_id "9b2e-fresh" 1700000600000 1700000600001 data
              sampleStore (id sampleTask) task) as (_ & Hget & Hsame).
  - reflexivity.
  - discriminate.
  - exact Hnew.
  - split.
    + change (title <$> Map.get (fst (createTask "9b2e-fresh" 1700000600000 1700000600001
                                       data sampleStore)) (id sampleTask)
              = Some "Write the report").
      rewrite Hget. vm_compute in Hnew. injection Hnew as <-. reflexivity.
    + apply Hsame. vm_compute. eauto.
Defined.

(** C9, as stated, fails on a payload that carries its own [createdAt]:
    creating a task at time 1700000600000 with a [createdAt] one day
    later succeeds and returns [updatedAt < createdAt]. *)
Lemma createTask_future_createdAt :
  let data := createdAtPayload "Write the report" (Instant 1700087000000) in
  exists j,
    snd (createTask "9b2e-fresh" 1700000600000 1700000600001 data sampleStore) = Ok j /\
    j_updatedAt j < j_createdAt j.
Proof. eexists. split; [vm_compute; reflexivity|]. simpl. lia. Qed.

(** C9 (amended). A successful create, with clock readings that do not
    decrease and a payload whose own [createdAt] (if any) is not later
    than the time of the creation, returns [updatedAt >= createdAt]. A
    successful update of a stored task whose [createdAt] is not later than
    the time of the update keeps [createdAt], sets [updatedAt] to that
    time, and so returns [updatedAt >= createdAt] as well. *)
Theorem timestamps_ordered :
  (forall uuid now0 now1 data store j,
      now0 <= now1 ->
      createdAt_not_later data now1 ->
      snd (createTask uuid now0 now1 data store) = Ok j ->
      j_createdAt j <= j_updatedAt j) /\
  (forall now k data store task created j,
      Map.get store k = Some task ->
      createdAt task = Instant created ->
      created <= now ->
      snd (updateTask now k data store) = Ok j ->
      j_createdAt j = created /\ j_updatedAt j = now /\ j_createdAt j <= j_updatedAt j).
Proof.
  split.
  - intros uuid now0 now1 data store j Hclock Hdata.
    unfold createTask.
    destruct (Task_new uuid now0 now1 data) as [task|] eqn:Hnew; simpl; [|discriminate].
    intros HJ. destruct (toJSON_timestamps _ _ HJ) as [Hc Hu].
    destruct (Task_new_timestamps _ _ _ _ _ Hnew) as [Hc' Hu'].
    rewrite Hu in Hu'. injection Hu' as ->.
    rewrite Hc in Hc'. destruct (p_createdAt data) as [d|] eqn:Hd.
    + subst d. now apply Hdata.
    + injection Hc' as ->. exact Hclock.
  - intros now k data store task created j Hget Hcreated Hle.
    unfold updateTask. rewrite Hget.
    destruct (Task_update now data task) as [task' outcome] eqn:Hup.
    unfold Task_update in Hup. injection Hup as <- <-.
    destruct (validate _); simpl; [|discriminate].
    intros HJ. destruct (toJSON_timestamps _ _ HJ) as [Hc Hu]. simpl in Hc, Hu.
    rewrite Hcreated in Hc. injection Hc as <-. injection Hu as <-.
    repeat split; lia.
Qed.

Lemma timestamps_ordered_witness :
  (exists j,
     snd (createTask "9b2e-fresh" 1700000600000 1700000600001
            (titlePayload "Write the report") sampleStore) = Ok j /\
     j_createdAt j <= j_updatedAt j) /\
  (exists j,
     snd (updateTask 1700000500000 (id sampleTask) (statusPayload "completed") sampleStore)
       = Ok j /\
     j_createdAt j <= j_updatedAt j).
Proof.
  destruct timestamps_ordered as [Hcreate Hupdate]. split.
  - eexists. split; [vm_compute; reflexivity|].
    apply (Hcreate "9b2e-fresh" 1700000600000 1700000600001
             (titlePayload "Write the report") sampleStore).
    + lia.
    + intros c Hc. discriminate.
    + vm_compute. reflexivity.
  - eexists. split; [vm_compute; reflexivity|].
    apply (Hupdate 1700000500000 (id sampleTask) (statusPayload "completed") sampleStore
             sampleTask 1700000000000).
    + reflexivity.
    + reflexivity.
    + lia.
    + vm_compute. reflexivity.
Defined.

(** ** Facts about sorting, slicing and serialising *)

Lemma insert_sorted_perm {A} (compare : A -> A -> Z) x l :
  Permutation (insert_sorted compare x l) (x :: l).
Proof.
  induction l as [|y l IH]; simpl; [reflexivity|].
  destruct (0 <? compare x y); [|reflexivity].
  rewrite IH. apply perm_swap.
Qed.

Lemma Array_sort_perm {A} (compare : A -> A -> Z) l :
  Permutation (Array_sort compare l) l.
Proof.
  induction l as [|x l IH]; simpl; [reflexivity|].
  rewrite insert_sorted_perm. now constructor.
Qed.

Lemma Array_sort_ext {A} (f g : A -> A -> Z) l :
  (forall a b, f a b = g a b) -> Array_sort f l = Array_sort g l.
Proof.
  intros Hfg. induction l as [|x l IH]; simpl; [reflexivity|].
  rewrite IH. generalize (Array_sort g l). intros s.
  induction s as [|y s IHs]; simpl; [reflexivity|].
  now rewrite Hfg, IHs.
Qed.

Lemma mapM_Forall2 {A B} (f : A -> result B) xs ys :
  mapM f xs = Ok ys <-> Forall2 (fun x y => f x = Ok y) xs ys.
Proof.
  revert ys. induction xs as [|x xs IH]; intros ys; simpl.
  - split; [intros [= <-]; constructor | intros H; inversion H; reflexivity].
  - unfold bind. split.
    + destruct (f x) as [y|] eqn:Hy; [|discriminate].
      destruct (mapM f xs) as [ys'|]; [|discriminate].
      intros [= <-]. constructor; [exact Hy | now apply IH].
    + intros H. inversion H as [|? y ? ys' Hy Hrest]; subst.
      rewrite Hy. apply IH in Hrest. now rewrite Hrest.
Qed.

Lemma mapM_total {A B} (f : A -> result B) xs :
  Forall (fun x => exists y, f x = Ok y) xs -> exists ys, mapM f xs = Ok ys.
Proof.
  induction 1 as [|x xs [y Hy] _ [ys Hys]]; simpl.
  - now exists [].
  - exists (y :: ys). unfold bind. now rewrite Hy, Hys.
Qed.

Lemma mapM_error {A B} (f : A -> result B) xs e :
  mapM f xs = Err e -> exists x, In x xs /\ f x = Err e.
Proof.
  induction xs as [|x xs IH]; simpl; [discriminate|]. unfold bind.
  destruct (f x) as [y|e'] eqn:Hy.
  - destruct (mapM f xs) as [ys|e'']; [discriminate|].
    intros [= <-]. destruct IH as (x' & Hin & Hx'); [reflexivity|]. eauto.
  - intros [= <-]. eauto.
Qed.

Lemma toJSON_error t e : toJSON t = Err e -> e = RangeError.
Proof.
  unfold toJSON, bind, toISOString.
  destruct (dueDate t) as [[ms|]|]; simpl;
    destruct (createdAt t); simpl; destruct (updatedAt t); simpl; congruence.
Qed.

Lemma toJSON_fields t j :
  toJSON t = Ok j ->
  j_id j = id t /\ j_title j = title t /\ j_description j = description t /\
  j_status j = status t /\ j_priority j = priority t /\ j_tags j = tags t.
Proof.
  unfold toJSON, bind.
  destruct (match dueDate t with Some d => _ | None => _ end); [|discriminate].
  destruct (toISOString (createdAt t)); [|discriminate].
  destruct (toISOString (updatedAt t)); [|discriminate].
  intros [= <-]. repeat split.
Qed.

(** For a start within [0, end], [slice] is the run of elements at
    positions [start], ..., [end - 1], cut where the array ends. *)
Lemma slice_lookup {A} (arr : list A) (a b : Z) (k : nat) :
  0 <= a <= b ->
  Js.slice arr a b !! k =
    if Z.of_nat k <? b - a then arr !! (Z.to_nat a + k)%nat else None.
Proof.
  intros Hab. unfold Js.slice, Js.rel_index.
  destruct (Z.ltb_spec a 0) as [|_]; [lia|].
  destruct (Z.ltb_spec b 0) as [|_]; [lia|].
  pose proof (Nat2Z.is_nonneg (length arr)) as Hlen.
  destruct (Z.ltb_spec (Z.of_nat k) (b - a)) as [Hk|Hk].
  - destruct (decide (Z.of_nat k <
                      Z.min b (Z.of_nat (length arr)) - Z.min a (Z.of_nat (length arr))))
      as [Hin|Hout].
    + rewrite lookup_take_lt by lia. rewrite lookup_drop.
      f_equal. lia.
    + rewrite lookup_take_ge by lia. symmetry. apply lookup_ge_None. lia.
  - apply lookup_take_ge. lia.
Qed.

Lemma slice_beyond {A} (arr : list A) (a b : Z) :
  Z.of_nat (length arr) <= a -> 0 <= a -> Js.slice arr a b = [].
Proof.
  intros Hlen Ha. unfold Js.slice, Js.rel_index.
  destruct (Z.ltb_spec a 0) as [|_]; [lia|].
  rewrite (Z.min_r a) by lia.
  rewrite skipn_all2 by lia. now rewrite firstn_nil.
Qed.

Lemma slice_incl {A} (arr : list A) (a b : Z) x :
  In x (Js.slice arr a b) -> In x arr.
Proof.
  unfold Js.slice. rewrite <- !list_elem_of_In. intros H.
  eapply subseteq_drop, subseteq_take, H.
Qed.

(** ** Sort parameters *)

Lemma applyFilters_coerceSort filters l :
  applyFilters (coerceSort filters) l = applyFilters filters l.
Proof. reflexivity. Qed.

Lemma isDesc_coerceSort filters : isDesc (coerceSort filters) = isDesc filters.
Proof. unfold isDesc at 1. simpl. now destruct (isDesc filters). Qed.

Lemma sortKey_default tz s a :
  Js.arr_includes knownSortFields s = false ->
  sortKey tz s a = sortKey tz "title" a.
Proof.
  unfold Js.arr_includes, knownSortFields, sortKey. simpl.
  destruct (String.eqb s "title"); [discriminate|].
  destruct (String.eqb s "priority"); [discriminate|].
  destruct (String.eqb s "dueDate"); [discriminate|].
  destruct (String.eqb s "createdAt"); [discriminate|].
  reflexivity.
Qed.

Lemma applySort_coerceSort tz filters l :
  applySort tz (coerceSort filters) l = applySort tz filters l.
Proof.
  unfold applySort.
  change (f_sortBy (coerceSort filters)) with
    (match f_sortBy filters with
     | Some s =>
         if Js.truthy s
         then Some (if Js.arr_includes knownSortFields s then s else "title")
         else None
     | None => None
     end).
  destruct (f_sortBy filters) as [s|]; [|reflexivity].
  destruct (Js.truthy s) eqn:Hs; [|reflexivity].
  destruct (Js.arr_includes knownSortFields s) eqn:Hknown.
  - rewrite Hs. apply Array_sort_ext. intros a b.
    unfold compareTasks. now rewrite isDesc_coerceSort.
  - change (Js.truthy "title") with true. cbv iota.
    apply Array_sort_ext. intros a b.
    unfold compareTasks. rewrite isDesc_coerceSort.
    now rewrite <- !(sortKey_default tz s) by exact Hknown.
Qed.

Lemma coerceSort_recognised filters : recognisedSort (coerceSort filters).
Proof.
  split; cbn [coerceSort f_sortBy f_sortOrder].
  - intros s. destruct (f_sortBy filters) as [s0|]; [|discriminate].
    destruct (Js.truthy s0); [|discriminate].
    destruct (Js.arr_includes knownSortFields s0) eqn:Hknown; intros [= <-].
    + unfold Js.arr_includes in Hknown. apply existsb_exists in Hknown.
      destruct Hknown as (x & Hin & Hx). apply String.eqb_eq in Hx.
      subst. exact Hin.
    + simpl. auto.
  - intros o [= <-]. destruct (isDesc filters); simpl; auto.
Qed.

Lemma getTasks_error tz store filters pg e :
  getTasks tz store filters pg = Err e -> e = RangeError.
Proof.
  unfold getTasks, bind.
  destruct (mapM toJSON _) as [js|e'] eqn:Hmap; [discriminate|].
  intros [= <-]. apply mapM_error in Hmap. destruct Hmap as (t & _ & Ht).
  now apply toJSON_error in Ht.
Qed.

(** C4, as stated, fails: a query with [sortBy = 'bogus'] and
    [sortOrder = 'sideways'] is not rejected; [getTasks] answers with the
    tasks in ascending order of title. *)
Lemma getTasks_accepts_unknown_sort :
  ~ recognisedSort (sortFilters "bogus" "sideways") /\
  exists r,
    getTasks 0 twoTasks (sortFilters "bogus" "sideways") noPagination = Ok r /\
    map j_title (tasks r) = ["Complete project documentation"; "Review code changes"].
Proof.
  split.
  - intros [Hby _]. specialize (Hby "bogus" eq_refl). simpl in Hby.
    intuition discriminate.
  - eexists. split; vm_compute; reflexivity.
Qed.

(** C4 (amended). [getTasks] rejects no query on account of its sort
    parameters: whatever [sortBy] and [sortOrder] are, it answers as it
    does for the query in which an unlisted [sortBy] is replaced by
    [title] (an empty one by no sort) and every [sortOrder] other than
    [desc] by [asc], and it never throws a validation error. *)
Theorem getTasks_coerces_sort tz store filters pg :
  getTasks tz store filters pg = getTasks tz store (coerceSort filters) pg /\
  recognisedSort (coerceSort filters) /\
  (forall violations, getTasks tz store filters pg <> Err (ValidationError violations)).
Proof.
  split; [|split].
  - unfold getTasks. now rewrite applyFilters_coerceSort, applySort_coerceSort.
  - apply coerceSort_recognised.
  - intros v H. apply getTasks_error in H. discriminate.
Qed.

(** ** Pagination *)

Lemma ceil_div_spec n d :
  0 < d -> (Js.ceil_div n d - 1) * d < n <= Js.ceil_div n d * d.
Proof.
  intros Hd. unfold Js.ceil_div.
  pose proof (Z.mul_div_le (- n) d Hd).
  pose proof (Z.mul_succ_div_gt (- n) d Hd). lia.
Qed.

Lemma serialisable_slice (l : list Task) a b :
  Forall serialisable l -> exists js, mapM toJSON (Js.slice l a b) = Ok js.
Proof.
  intros Hl. apply mapM_total. rewrite List.Forall_forall in *.
  intros t Ht. apply Hl. eapply slice_incl, Ht.
Qed.

(** C5. For [page >= 1] and [limit] in 1..100, an answer of [getTasks]
    carries the tasks at positions [(page-1)*limit], ..., [page*limit - 1]
    of the filtered and sorted sequence, in that order; [total] is the
    length of that sequence, whatever the page and the limit;
    [totalPages] is the least number of pages of [limit] tasks that hold
    [total] tasks; [hasNext] holds exactly when [page*limit < total],
    [hasPrev] exactly when [page > 1]. The answer exists as soon as the
    tasks can be serialised, and for a page beyond the last one it exists
    and is empty. *)
Theorem getTasks_pagination tz store filters pg lim :
  1 <= pg ->
  1 <= lim <= 100 ->
  let sequence := applySort tz filters (applyFilters filters (Map.values store)) in
  let n := Z.of_nat (length sequence) in
  let answer := getTasks tz store filters (mkPagination (Some pg) (Some lim)) in
  (forall r, answer = Ok r ->
     (exists run : list Task,
        (forall k : nat,
           run !! k = if Z.of_nat k <? lim
                      then sequence !! (Z.to_nat ((pg - 1) * lim) + k)%nat
                      else None) /\
        Forall2 (fun t j => toJSON t = Ok j) run (tasks r)) /\
     page (pagination r) = pg /\
     limit (pagination r) = lim /\
     total (pagination r) = n /\
     (totalPages (pagination r) - 1) * lim < n <= totalPages (pagination r) * lim /\
     (hasNext (pagination r) = true <-> pg * lim < n) /\
     (hasPrev (pagination r) = true <-> 1 < pg)) /\
  (Forall serialisable sequence -> exists r, answer = Ok r) /\
  (n <= (pg - 1) * lim -> exists r, answer = Ok r /\ tasks r = []).
Proof.
  intros Hpg Hlim sequence n answer.
  assert (Epg : num_or (Some pg) 1 = pg).
  { simpl. destruct (Z.eqb_spec pg 0); [lia|reflexivity]. }
  assert (Elim : num_or (Some lim) 10 = lim).
  { simpl. destruct (Z.eqb_spec lim 0); [lia|reflexivity]. }
  assert (Eanswer : answer =
    let* jsons := mapM toJSON (Js.slice sequence ((pg - 1) * lim) ((pg - 1) * lim + lim)) in
    Ok {| tasks := jsons;
          pagination := {| page := pg; limit := lim; total := n;
                           totalPages := Js.ceil_div n lim;
                           hasNext := (pg - 1) * lim + lim <? n;
                           hasPrev := 1 <? pg |} |}).
  { subst answer. unfold getTasks. cbn [p_page p_limit]. rewrite Epg, Elim. reflexivity. }
  rewrite Eanswer. clear Eanswer answer. unfold bind.
  split; [|split].
  - intros r.
    destruct (mapM toJSON _) as [js|] eqn:Hmap; [|discriminate].
    intros [= <-]. cbn [tasks pagination page limit total totalPages hasNext hasPrev].
    split; [|repeat split].
    + exists (Js.slice sequence ((pg - 1) * lim) ((pg - 1) * lim + lim)). split.
      * intros k. rewrite slice_lookup by nia.
        now replace ((pg - 1) * lim + lim - (pg - 1) * lim) with lim by lia.
      * now apply mapM_Forall2.
    + apply ceil_div_spec. lia.
    + apply ceil_div_spec. lia.
    + intros H. apply Z.ltb_lt in H. lia.
    + intros H. apply Z.ltb_lt. lia.
    + intros H. now apply Z.ltb_lt in H.
    + intros H. now apply Z.ltb_lt.
  - intros Hser.
    destruct (serialisable_slice sequence ((pg - 1) * lim) ((pg - 1) * lim + lim) Hser)
      as [js ->].
    eauto.
  - intros Hbeyond. rewrite slice_beyond by nia. simpl. eauto.
Qed.

Lemma getTasks_pagination_witness :
  exists r,
    getTasks 0 twoTasks noFilters (mkPagination (Some 2) (Some 1)) = Ok r /\
    total (pagination r) = 2 /\ hasPrev (pagination r) = true.
Proof.
  destruct (getTasks_pagination 0 twoTasks noFilters 2 1) as (Hanswer & Hexists & _);
    [lia | lia |].
  destruct Hexists as [r Hr].
  { repeat constructor; eexists; vm_compute; reflexivity. }
  exists r. split; [exact Hr|].
  destruct (Hanswer r Hr) as (_ & _ & _ & Htotal & _ & _ & Hprev).
  split; [exact Htotal|]. apply Hprev. lia.
Defined.

(** ** Filtering *)

Lemma append_cons c (a b : string) :
  (String c a ++ b)%string = String c (a ++ b)%string.
Proof. reflexivity. Qed.

Lemma prefix_spec (a s : string) :
  String.prefix a s = true <-> exists after, s = (a ++ after)%string.
Proof.
  revert s. induction a as [|c a IH]; intros s.
  - split; [|now destruct s]. intros _. now exists s.
  - destruct s as [|d s]; simpl.
    + split; [discriminate | intros [after H]; discriminate].
    + destruct (ascii_dec c d) as [->|Hcd].
      * rewrite IH. split; intros [after H]; exists after;
          rewrite append_cons in *; congruence.
      * split; [discriminate|]. intros [after H]. rewrite append_cons in H. congruence.
Qed.

Lemma includes_spec (s sub : string) :
  Js.includes s sub = true <->
  exists before after, s = (before ++ sub ++ after)%string.
Proof.
  induction s as [|c s IH]; cbn [Js.includes].
  - rewrite orb_false_r, prefix_spec. split.
    + intros [after H]. now exists EmptyString, after.
    + intros (before & after & H). destruct before; [now exists after|discriminate].
  - rewrite orb_true_iff, prefix_spec, IH. split.
    + intros [[after H]|(before & after & H)].
      * now exists EmptyString, after.
      * exists (String c before), after. rewrite append_cons. now rewrite H.
    + intros (before & after & H). destruct before as [|d before].
      * left. now exists after.
      * right. rewrite append_cons in H. injection H as _ H. now exists before, after.
Qed.

Lemma arr_includes_In (arr : list string) x : Js.arr_includes arr x = true <-> In x arr.
Proof.
  unfold Js.arr_includes. rewrite existsb_exists. split.
  - intros (y & Hy & E). apply String.eqb_eq in E. now subst.
  - intros H. exists x. split; [exact H | apply String.eqb_refl].
Qed.

Lemma truthy_nonempty s : Js.truthy s = true <-> s <> EmptyString.
Proof.
  unfold Js.truthy. destruct (String.eqb_spec s EmptyString); simpl; split; intros; congruence.
Qed.

Lemma matchesSearch_spec term (task : Task) :
  matchesSearch (Js.toLowerCase term) task = true ->
  occursIgnoringCase term (title task) \/
  occursIgnoringCase term (description task) \/
  exists tag, In tag (tags task) /\ occursIgnoringCase term tag.
Proof.
  unfold matchesSearch, occursIgnoringCase.
  rewrite !orb_true_iff, !includes_spec, existsb_exists.
  intros [[H|H]|(tag & Hin & H)]; [now left | now right; left |].
  right; right. exists tag. now rewrite includes_spec in H.
Qed.

Lemma matchesTags_spec wanted (task : Task) :
  matchesTags wanted task = true ->
  exists tag, In tag wanted /\ In tag (tags task).
Proof.
  unfold matchesTags. rewrite existsb_exists.
  intros (tag & Hin & H). exists tag. now rewrite arr_includes_In in H.
Qed.

Lemma filterByStatus_sound filters l t :
  In t (filterByStatus filters l) ->
  In t l /\ forall s, f_status filters = Some s -> s <> EmptyString -> status t = s.
Proof.
  unfold filterByStatus. destruct (f_status filters) as [s|]; [|now split].
  destruct (Js.truthy s) eqn:Hs.
  - intros H. apply filter_In in H. destruct H as [H Hm]. split; [exact H|].
    intros ? [= <-] _. now apply String.eqb_eq.
  - intros H. split; [exact H|]. intros ? [= <-] Hne.
    apply truthy_nonempty in Hne. congruence.
Qed.

Lemma filterByPriority_sound filters l t :
  In t (filterByPriority filters l) ->
  In t l /\ forall p, f_priority filters = Some p -> p <> EmptyString -> priority t = p.
Proof.
  unfold filterByPriority. destruct (f_priority filters) as [p|]; [|now split].
  destruct (Js.truthy p) eqn:Hp.
  - intros H. apply filter_In in H. destruct H as [H Hm]. split; [exact H|].
    intros ? [= <-] _. now apply String.eqb_eq.
  - intros H. split; [exact H|]. intros ? [= <-] Hne.
    apply truthy_nonempty in Hne. congruence.
Qed.

Lemma filterBySearch_sound filters l t :
  In t (filterBySearch filters l) ->
  In t l /\
  forall term, f_search filters = Some term -> term <> EmptyString ->
               matchesSearch (Js.toLowerCase term) t = true.
Proof.
  unfold filterBySearch. destruct (f_search filters) as [s|]; [|now split].
  destruct (Js.truthy s) eqn:Hs.
  - intros H. apply filter_In in H. destruct H as [H Hm]. split; [exact H|].
    now intros ? [= <-].
  - intros H. split; [exact H|]. intros ? [= <-] Hne.
    apply truthy_nonempty in Hne. congruence.
Qed.

Lemma filterByTags_sound filters l t :
  In t (filterByTags filters l) ->
  In t l /\
  forall wanted, f_tags filters = Some wanted -> wanted <> [] ->
                 matchesTags wanted t = true.
Proof.
  unfold filterByTags. destruct (f_tags filters) as [wanted|]; [|now split].
  destruct wanted as [|w wanted].
  - intros H. split; [exact H|]. now intros ? [= <-].
  - change (0 <? Z.of_nat (length (w :: wanted))) with true. cbv iota.
    intros H. apply filter_In in H. destruct H as [H Hm]. split; [exact H|].
    now intros ? [= <-].
Qed.

Lemma applyFilters_sound filters l t :
  In t (applyFilters filters l) -> In t l /\ passes filters t.
Proof.
  unfold applyFilters, passes. intros H.
  apply filterByTags_sound in H. destruct H as [H Htags].
  apply filterBySearch_sound in H. destruct H as [H Hsearch].
  apply filterByPriority_sound in H. destruct H as [H Hpriority].
  apply filterByStatus_sound in H. destruct H as [H Hstatus].
  auto.
Qed.

Lemma applySort_In tz filters l t : In t (applySort tz filters l) -> In t l.
Proof.
  unfold applySort. destruct (f_sortBy filters) as [s|]; [|auto].
  destruct (Js.truthy s); [|auto].
  apply Permutation_in, Array_sort_perm.
Qed.

Lemma In_nonempty (x : string) l : In x l -> ~ In EmptyString l -> x <> EmptyString.
Proof. intros Hin Hno ->. contradiction. Qed.

Lemma Forall2_sources {A B} (R : A -> B -> Prop) xs ys :
  Forall2 R xs ys -> Forall (fun y => exists x, In x xs /\ R x y) ys.
Proof.
  induction 1 as [|x y xs ys Hxy _ IH]; constructor.
  - exists x. split; [now left | exact Hxy].
  - eapply List.Forall_impl; [|exact IH].
    intros y' (x' & Hin & HR). exists x'. split; [now right | exact HR].
Qed.

(** C6. For a filter specification within the query contract, every task
    of the page that [getTasks] returns is the serialisation of a task of
    the collection and satisfies all active filters: its status and its
    priority are the requested ones, the search term occurs, ignoring
    case, in its title, in its description or in one of its tags, and it
    carries at least one of the requested tags. *)
Theorem getTasks_filters_conjunction tz store filters pg r :
  validFilters filters ->
  getTasks tz store filters pg = Ok r ->
  Forall (fun j =>
            satisfies filters j /\
            exists t, In t (Map.values store) /\ toJSON t = Ok j)
         (tasks r).
Proof.
  intros (Vstatus & Vpriority & Vsearch). unfold getTasks, bind.
  destruct (mapM toJSON _) as [js|] eqn:Hmap; [|discriminate].
  intros [= <-]. cbn [tasks]. apply mapM_Forall2, Forall2_sources in Hmap.
  eapply List.Forall_impl; [|exact Hmap]. clear Hmap.
  intros j (t & Hin & Hj).
  apply slice_incl, applySort_In, applyFilters_sound in Hin.
  destruct Hin as (Hin & Pstatus & Ppriority & Psearch & Ptags).
  split; [|now exists t]. unfold satisfies.
  destruct (toJSON_fields t j Hj) as (_ & -> & -> & -> & -> & ->).
  repeat split.
  - intros s Hs. apply Pstatus; [exact Hs|].
    apply (In_nonempty s validStatuses); [now apply Vstatus|].
    simpl. intuition discriminate.
  - intros p Hp. apply Ppriority; [exact Hp|].
    apply (In_nonempty p validPriorities); [now apply Vpriority|].
    simpl. intuition discriminate.
  - intros term Hterm. apply matchesSearch_spec, Psearch; [exact Hterm|].
    destruct (Vsearch term Hterm) as [Hlen _]. intros ->. simpl in Hlen. lia.
  - intros wanted Hwanted Hne. now apply matchesTags_spec, Ptags.
Qed.

Lemma getTasks_filters_conjunction_witness :
  exists r,
    getTasks 0 twoTasks searchFilters noPagination = Ok r /\
    map j_id (tasks r) = [id otherTask] /\
    Forall (satisfies searchFilters) (tasks r).
Proof.
  destruct (getTasks 0 twoTasks searchFilters noPagination) as [r|] eqn:Hr;
    [|vm_compute in Hr; discriminate].
  exists r. split; [reflexivity|]. split.
  - vm_compute in Hr. injection Hr as <-. reflexivity.
  - assert (Hvalid : validFilters searchFilters).
    { split; [|split]; intros s [= <-]; simpl; auto; lia. }
    eapply List.Forall_impl;
      [|exact (getTasks_filters_conjunction 0 twoTasks searchFilters noPagination r Hvalid Hr)].
    intros j H. exact (proj1 H).
Defined.

(** ** Sorting by due date *)

Section KeySort.

Context {A : Type}.
Variable compare : A -> A -> Z.
Variable key : A -> Z.
Variable P : A -> Prop.
Hypothesis compare_key :
  forall x y, P x -> P y -> (0 <? compare x y) = (key y <? key x).

Lemma insert_sorted_Forall (Q : A -> Prop) x l :
  Q x -> Forall Q l -> Forall Q (insert_sorted compare x l).
Proof.
  intros Hx Hl. induction Hl as [|y l Hy Hl IH]; simpl.
  - now constructor.
  - destruct (0 <? compare x y); repeat constructor; assumption.
Qed.

Lemma insert_sorted_ordered x l :
  P x -> Forall P l ->
  StronglySorted (keyOrder key) l -> StronglySorted (keyOrder key) (insert_sorted compare x l).
Proof.
  intros Px Pl Hs. induction Hs as [|y l Hs IH Hy]; simpl.
  - repeat constructor.
  - apply Forall_cons in Pl. destruct Pl as [Py Pl].
    rewrite (compare_key x y Px Py). destruct (Z.ltb_spec (key y) (key x)) as [Hlt|Hge].
    + constructor; [now apply IH|].
      apply insert_sorted_Forall; [unfold keyOrder; lia | exact Hy].
    + constructor; [now constructor|].
      constructor; [exact Hge|].
      eapply List.Forall_impl; [|exact Hy]. unfold keyOrder. intros z Hz. lia.
Qed.

Lemma Array_sort_ordered l :
  Forall P l -> Forall P (Array_sort compare l) /\ StronglySorted (keyOrder key) (Array_sort compare l).
Proof.
  induction 1 as [|x l Px Pl [IHP IHs]]; simpl.
  - split; constructor.
  - split.
    + now apply insert_sorted_Forall.
    + now apply insert_sorted_ordered.
Qed.

Lemma ordered_lookup (s : list A) i j a b :
  StronglySorted (keyOrder key) s ->
  s !! i = Some a -> s !! j = Some b -> (i < j)%nat -> key a <= key b.
Proof.
  intros Hs. revert i j. induction Hs as [|x s Hs IH Hx]; intros i j Hi Hj Hij.
  - discriminate.
  - destruct j as [|j]; [lia|]. destruct i as [|i]; simpl in *.
    + injection Hi as <-. rewrite List.Forall_forall in Hx.
      apply Hx. apply list_elem_of_In. eapply list_elem_of_lookup_2, Hj.
    + apply (IH i j); [assumption | assumption | lia].
Qed.

End KeySort.

Lemma ascending_sign x y :
  (0 <? (if x <? y then -1 else if y <? x then 1 else 0)) = (y <? x).
Proof.
  destruct (Z.ltb_spec x y), (Z.ltb_spec y x); try reflexivity; lia.
Qed.

Lemma compareTasks_dueKey tz filters a b :
  isDesc filters = false ->
  dueDateValid a -> dueDateValid b ->
  (0 <? compareTasks tz filters "dueDate" a b) = (dueKey tz b <? dueKey tz a).
Proof.
  intros Hasc Ha Hb. unfold compareTasks. rewrite Hasc.
  change (sortKey tz "dueDate" a)
    with (KeyDate (match dueDate a with Some d => d | None => farFuture tz end)).
  change (sortKey tz "dueDate" b)
    with (KeyDate (match dueDate b with Some d => d | None => farFuture tz end)).
  unfold dueKey, dueDateValid, farFuture, key_ltb, Date_ltb in *.
  destruct (dueDate a) as [[x|]|]; [| congruence |];
    destruct (dueDate b) as [[y|]|]; try congruence; apply ascending_sign.
Qed.

(** In every time zone from UTC-12 to UTC+14, the last second of the year
    9999 (UTC) is later than local midnight of 31 December 9999, and the
    sort puts the task due then after the task without a due date. *)
Lemma late_due_date_after_undated tz :
  -840 <= tz <= 720 ->
  applySort tz (sortFilters "dueDate" "asc") [lateTask; undatedTask]
  = [undatedTask; lateTask].
Proof.
  intros Htz. unfold applySort. cbn [f_sortBy sortFilters].
  change (Js.truthy "dueDate") with true. cbv iota.
  unfold Array_sort. cbn [fold_right insert_sorted].
  assert (E : (0 <? compareTasks tz (sortFilters "dueDate" "asc") "dueDate"
                      lateTask undatedTask) = true).
  { rewrite compareTasks_dueKey by (reflexivity || discriminate).
    unfold dueKey. cbn [dueDate lateTask undatedTask]. apply Z.ltb_lt. lia. }
  now rewrite E.
Qed.

(** C7, as stated, fails: in ascending order of due date, the task
    without a due date comes before the task that is due in the last
    second of the year 9999 (here with the server in UTC). *)
Lemma undated_before_late_due_date :
  exists r,
    getTasks 0 [(id lateTask, lateTask); (id undatedTask, undatedTask)]
             (sortFilters "dueDate" "asc") noPagination = Ok r /\
    map j_id (tasks r) = [id undatedTask; id lateTask] /\
    map j_dueDate (tasks r) = [None; Some 253402300799000].
Proof. eexists. repeat split; vm_compute; reflexivity. Qed.

(** C7 (amended). When sorting by [dueDate] in ascending order, a task
    with no due date sorts as if it were due at local midnight of 31
    December 9999: it comes after every task whose due date is earlier
    than that instant, and before every task whose due date is later. *)
Theorem undated_sorts_as_far_future tz filters l i j a b d :
  f_sortBy filters = Some "dueDate" ->
  f_sortOrder filters = Some "asc" ->
  Forall dueDateValid l ->
  applySort tz filters l !! i = Some a ->
  applySort tz filters l !! j = Some b ->
  dueDate a = Some (Instant d) ->
  dueDate b = None ->
  (d < 253402214400000 + tz * 60000 -> (i < j)%nat) /\
  (253402214400000 + tz * 60000 < d -> (j < i)%nat).
Proof.
  intros Hby Horder Hvalid Hi Hj Ha Hb.
  assert (Hasc : isDesc filters = false) by (unfold isDesc; now rewrite Horder).
  unfold applySort in Hi, Hj. rewrite Hby in Hi, Hj.
  change (Js.truthy "dueDate") with true in Hi, Hj. cbv iota in Hi, Hj.
  destruct (Array_sort_ordered (compareTasks tz filters "dueDate") (dueKey tz) dueDateValid
              (fun x y => compareTasks_dueKey tz filters x y Hasc) l Hvalid)
    as [_ Hsorted].
  assert (Ka : dueKey tz a = d) by (unfold dueKey; now rewrite Ha).
  assert (Kb : dueKey tz b = 253402214400000 + tz * 60000)
    by (unfold dueKey; now rewrite Hb).
  assert (Hij : i <> j) by (intros ->; congruence).
  split; intros Hd.
  - destruct (Nat.lt_ge_cases i j) as [|Hge]; [assumption|].
    assert (Hlt : (j < i)%nat) by lia.
    pose proof (ordered_lookup (dueKey tz) _ j i b a Hsorted Hj Hi Hlt). lia.
  - destruct (Nat.lt_ge_cases j i) as [|Hge]; [assumption|].
    assert (Hlt : (i < j)%nat) by lia.
    pose proof (ordered_lookup (dueKey tz) _ i j a b Hsorted Hi Hj Hlt). lia.
Qed.

Lemma undated_sorts_as_far_future_witness :
  applySort 0 (sortFilters "dueDate" "asc") [undatedTask; sampleTask] !! 0%nat
    = Some sampleTask /\
  (0 < 1)%nat.
Proof.
  split; [vm_compute; reflexivity|].
  apply (undated_sorts_as_far_future 0 (sortFilters "dueDate" "asc")
           [undatedTask; sampleTask] 0 1 sampleTask undatedTask 1700172800000).
  - reflexivity.
  - reflexivity.
  - repeat constructor; discriminate.
  - vm_compute. reflexivity.
  - vm_compute. reflexivity.
  - reflexivity.
  - reflexivity.
  - lia.
Defined.

(** ** Aggregation over tags and days *)

Lemma slice_first_page {A} (l : list A) : Js.slice l 0 10 = firstn 10 l.
Proof.
  unfold Js.slice, Js.rel_index.
  change (10 <? 0) with false. change (0 <? 0) with false. cbv iota.
  rewrite (Z.min_l 0) by lia. rewrite Z.sub_0_r.
  change (drop (Z.to_nat 0) l) with l.
  destruct (Z.min_spec 10 (Z.of_nat (length l))) as [[Hlt ->]|[Hge ->]].
  - reflexivity.
  - rewrite Nat2Z.id. rewrite !firstn_all2; [reflexivity | lia | lia].
Qed.

(** [getTasks()] without arguments serialises the first ten tasks of the
    map and no others. *)
Lemma getTasks_default tz store :
  tasks <$> match getTasks tz store noFilters noPagination with
            | Ok r => Some r
            | Err _ => None
            end
  = match mapM toJSON (firstn 10 (Map.values store)) with
    | Ok js => Some js
    | Err _ => None
    end.
Proof.
  unfold getTasks.
  change (applySort tz noFilters (applyFilters noFilters (Map.values store)))
    with (Map.values store).
  change (num_or (p_page noPagination) 1) with 1.
  change (num_or (p_limit noPagination) 10) with 10.
  change ((1 - 1) * 10) with 0. change (0 + 10) with 10.
  rewrite slice_first_page. unfold bind.
  now destruct (mapM toJSON _).
Qed.

Lemma not_inherited_not_proto tag :
  inherited tag = false -> String.eqb tag "__proto__" = false.
Proof.
  unfold inherited, Js.arr_includes, Object_prototype_names. simpl.
  rewrite !orb_false_iff. tauto.
Qed.

Lemma bump_other obj k tag : k <> tag -> bump obj k !! tag = obj !! tag.
Proof.
  intros Hne. unfold bump, assign.
  destruct (obj !! k) as [[n| |]|]; try destruct (inherited k);
    destruct (String.eqb k "__proto__"); try reflexivity;
    now rewrite lookup_insert_ne.
Qed.

Lemma bump_same obj tag n :
  inherited tag = false ->
  obj !! tag = asCount n -> bump obj tag !! tag = asCount (S n).
Proof.
  intros Hown Hn. unfold bump, assign.
  rewrite Hn, Hown, (not_inherited_not_proto tag Hown).
  destruct n as [|n]; simpl; rewrite lookup_insert_eq; [reflexivity|].
  now rewrite Nat.add_1_r.
Qed.

Lemma bump_all obj tag n (l : list string) :
  inherited tag = false ->
  obj !! tag = asCount n ->
  fold_left bump l obj !! tag = asCount (n + count_occ string_dec l tag).
Proof.
  intros Hown. revert obj n. induction l as [|k l IH]; intros obj n Hn; simpl.
  - now rewrite Nat.add_0_r.
  - destruct (string_dec k tag) as [->|Hne].
    + rewrite (IH _ (S n)); [f_equal; lia|]. now apply bump_same.
    + apply IH. now rewrite bump_other.
Qed.

Lemma countTags_all obj tag n (ts : list Task) (js : list TaskJSON) :
  inherited tag = false ->
  Forall2 (fun t j => toJSON t = Ok j) ts js ->
  obj !! tag = asCount n ->
  fold_left countTags js obj !! tag = asCount (n + occurrences tag ts).
Proof.
  intros Hown H. revert obj n.
  induction H as [|t j ts js Hj _ IH]; intros obj n Hn; simpl.
  - now rewrite Nat.add_0_r.
  - unfold occurrences. simpl. fold (occurrences tag ts).
    rewrite Nat.add_assoc. apply IH. unfold countTags.
    destruct (toJSON_fields t j Hj) as (_ & _ & _ & _ & _ & ->).
    now apply bump_all.
Qed.

Lemma occurrences_carriers tag (l : list Task) :
  Forall (fun t => List.NoDup (tags t)) l -> occurrences tag l = carriers tag l.
Proof.
  unfold occurrences, carriers.
  induction 1 as [|t l Hnd _ IH]; simpl; [reflexivity|]. rewrite IH.
  destruct (Js.arr_includes (tags t) tag) eqn:Hin; simpl.
  - apply arr_includes_In in Hin.
    now rewrite (proj1 (NoDup_count_occ' string_dec (tags t)) Hnd tag Hin).
  - assert (Hout : ~ In tag (tags t)).
    { intros Hc. apply arr_includes_In in Hc. congruence. }
    now rewrite (proj1 (count_occ_not_In string_dec (tags t) tag) Hout).
Qed.

(** C2, as stated, fails: a task created with the tag [urgent] written
    twice is a single task carrying that tag, and the count reported for
    [urgent] is 2. *)
Lemma repeated_tag_counted_twice :
  let store := fst (createTask "9b2e-fresh" 1700000600000 1700000600001 repeatedTagPayload []) in
  carriers "urgent" (Map.values store) = 1%nat /\
  exists r, statsTags 0 store = Ok r /\ tagCounts r !! "urgent" = Some (Count 2).
Proof.
  split; [vm_compute; reflexivity|].
  eexists. split; vm_compute; reflexivity.
Qed.

(** C2 (amended). For a collection of at most ten tasks, the count
    reported for a tag that is not the name of an inherited property is
    the number of occurrences of the tag over all the tasks, each task
    counting once per occurrence (and the tag has no entry when it occurs
    nowhere); when no task repeats a tag, this is the number of tasks that
    carry the tag. *)
Theorem tag_count_is_occurrences tz store r tag :
  (Map.size store <= 10)%nat ->
  inherited tag = false ->
  statsTags tz store = Ok r ->
  tagCounts r !! tag = asCount (occurrences tag (Map.values store)) /\
  (Forall (fun t => List.NoDup (tags t)) (Map.values store) ->
   tagCounts r !! tag = asCount (carriers tag (Map.values store))).
Proof.
  intros Hsize Hown Hstats.
  assert (Hcount : tagCounts r !! tag = asCount (occurrences tag (Map.values store))).
  { unfold statsTags, bind in Hstats.
    pose proof (getTasks_default tz store) as Hdefault.
    destruct (getTasks tz store noFilters noPagination) as [page|]; [|discriminate].
    injection Hstats as <-. cbn [tagCounts]. simpl in Hdefault.
    rewrite firstn_all2 in Hdefault
      by (unfold Map.values, Map.size in *; rewrite length_map; lia).
    destruct (mapM toJSON (Map.values store)) as [js|] eqn:Hmap; [|discriminate].
    injection Hdefault as ->. apply mapM_Forall2 in Hmap.
    apply (countTags_all ∅ tag 0 _ _ Hown Hmap). apply lookup_empty. }
  split; [exact Hcount|].
  intros Hnodup. now rewrite <- (occurrences_carriers tag _ Hnodup).
Qed.

Lemma tag_count_is_occurrences_witness :
  exists r,
    statsTags 0 twoTasks = Ok r /\
    tagCounts r !! "api" = Some (Count 1).
Proof.
  destruct (statsTags 0 twoTasks) as [r|] eqn:Hr; [|vm_compute in Hr; discriminate].
  exists r. split; [reflexivity|].
  destruct (tag_count_is_occurrences 0 twoTasks r "api") as [Hcount _].
  - vm_compute. lia.
  - reflexivity.
  - exact Hr.
  - rewrite Hcount. reflexivity.
Defined.

(** What the aggregation handlers get from [getTasks()] is the same for a
    map and for its first ten entries. *)
Lemma getTasks_default_first_ten tz store :
  match getTasks tz store noFilters noPagination,
        getTasks tz (firstn 10 store) noFilters noPagination with
  | Ok p1, Ok p2 => tasks p1 = tasks p2
  | Err e1, Err e2 => e1 = e2
  | _, _ => False
  end.
Proof.
  pose proof (getTasks_default tz store) as H1.
  pose proof (getTasks_default tz (firstn 10 store)) as H2.
  unfold Map.values in *. rewrite <- firstn_map in H2.
  rewrite firstn_firstn in H2. change (Init.Nat.min 10 10) with 10%nat in H2.
  rewrite <- H1 in H2. clear H1.
  destruct (getTasks tz store noFilters noPagination) as [p1|e1] eqn:E1,
           (getTasks tz (firstn 10 store) noFilters noPagination) as [p2|e2] eqn:E2;
    simpl in H2; try discriminate.
  - now injection H2.
  - apply getTasks_error in E1, E2. now subst.
Qed.

(** Both aggregations are computed from the first ten tasks of the map. *)
Lemma statsTags_first_ten tz store :
  statsTags tz store = statsTags tz (firstn 10 store).
Proof.
  unfold statsTags, bind.
  pose proof (getTasks_default_first_ten tz store) as H.
  destruct (getTasks tz store noFilters noPagination) as [p1|e1],
           (getTasks tz (firstn 10 store) noFilters noPagination) as [p2|e2];
    try contradiction; now rewrite H.
Qed.

Lemma statsCompletionTrend_first_ten tz fl store :
  statsCompletionTrend tz fl store = statsCompletionTrend tz fl (firstn 10 store).
Proof.
  unfold statsCompletionTrend, bind.
  pose proof (getTasks_default_first_ten tz store) as H.
  destruct (getTasks tz store noFilters noPagination) as [p1|e1],
           (getTasks tz (firstn 10 store) noFilters noPagination) as [p2|e2];
    try contradiction; now rewrite H.
Qed.

(** C3 (code defect). Aggregation does not read the full collection: of
    eleven valid tasks, the eleventh, tagged [rare] and created on a day
    of its own, contributes neither to the tag counts nor to the
    completion trend; both are computed from the first ten tasks. *)
Theorem aggregation_skips_eleventh_task :
  Map.size elevenTasks = 11%nat /\
  Map.get elevenTasks (id eleventhTask) = Some eleventhTask /\
  validate eleventhTask = Ok tt /\
  (exists r,
     statsTags 0 elevenTasks = Ok r /\
     tagCounts r !! "rare" = None /\
     tagCounts r !! "common" = Some (Count 10)) /\
  (exists r,
     statsCompletionTrend 0 (fun q => q) elevenTasks = Ok r /\
     map (fun row => (date row, r_total row)) (trendData r) = [(19675, 10%nat)] /\
     utcDay 1700172800000 = 19677).
Proof.
  split; [reflexivity|]. split; [reflexivity|]. split; [reflexivity|]. split.
  - eexists. repeat split; vm_compute; reflexivity.
  - eexists. repeat split; vm_compute; reflexivity.
Qed.

(** ** Statistics *)

Lemma increment_other obj k key : k <> key -> increment obj k !! key = obj !! key.
Proof.
  intros Hne. unfold increment, assign.
  destruct (obj !! k) as [[n| |]|];
    destruct (String.eqb k "__proto__"); try reflexivity;
    now rewrite lookup_insert_ne.
Qed.

Lemma increment_completed obj n :
  obj !! "completed" = Some (Count n) ->
  increment obj "completed" !! "completed" = Some (Count (S n)).
Proof.
  intros Hn. unfold increment, assign. rewrite Hn.
  change (String.eqb "completed" "__proto__") with false. cbv iota.
  rewrite lookup_insert_eq. now rewrite Nat.add_1_r.
Qed.

Lemma countTask_completed (entries : list (Z * Task)) statusCounts priorityCounts overdueCount n :
  statusCounts !! "completed" = Some (Count n) ->
  (fold_left countTask entries (statusCounts, priorityCounts, overdueCount)).1.1
    !! "completed"
  = Some (Count (n + completedCount (map snd entries))).
Proof.
  revert statusCounts priorityCounts overdueCount n.
  induction entries as [|[now task] entries IH]; intros sc pc oc n Hn; simpl.
  - now rewrite Nat.add_0_r.
  - unfold completedCount. simpl. fold (completedCount (map snd entries)).
    destruct (String.eqb_spec (status task) "completed") as [E|E]; simpl.
    + rewrite (IH _ _ _ (S n)); [f_equal; f_equal; unfold completedCount; lia|].
      rewrite E. now apply increment_completed.
    + apply IH. now rewrite increment_other.
Qed.

Lemma imap_snd {A B} (f : nat -> B) (l : list A) :
  map snd (imap (fun i x => (f i, x)) l) = l.
Proof.
  revert f. induction l as [|x l IH]; intros f; simpl; [reflexivity|].
  f_equal. apply (IH (f ∘ S)).
Qed.

Lemma getTaskStats_rate fl clock store :
  s_total (getTaskStats fl clock store) = Map.size store /\
  completionRate (getTaskStats fl clock store)
  = completionRateOf fl (Count (completedCount (Map.values store))) (Map.size store).
Proof.
  unfold getTaskStats.
  pose proof (countTask_completed
                (imap (fun i task => (clock i, task)) (Map.values store))
                initialStatusCounts initialPriorityCounts 0%nat 0%nat eq_refl) as H.
  rewrite imap_snd in H.
  destruct (fold_left countTask _ _) as [[sc pc] oc]. simpl in H.
  cbn [s_total completionRate]. rewrite H. simpl.
  unfold Map.size, Map.values. now rewrite length_map.
Qed.

Section Rounding.

Local Open Scope Q_scope.

Lemma minNormal_small : minNormal <= 1 # 8589934592.
Proof. unfold minNormal, Qle. apply Z.leb_le. vm_compute. reflexivity. Qed.

Lemma maxFinite_large : 200 <= maxFinite.
Proof. unfold maxFinite, Qle. apply Z.leb_le. vm_compute. reflexivity. Qed.

Lemma scale_up (Y X T C d : Q) :
  0 < T -> X * T == C -> Y <= 1000 * X + (1 # 2) + d ->
  2 * Y * T <= 2000 * C + T + 2 * d * T.
Proof. intros HT HX HY. rewrite <- HX. nra. Qed.

Lemma scale_up_lower (Y X T C d : Q) :
  0 < T -> X * T == C -> 1000 * X + (1 # 2) - d < Y + 1 ->
  2000 * C - T - 2 * d * T < 2 * Y * T.
Proof. intros HT HX HY. rewrite <- HX. nra. Qed.

Lemma scale_down (Y X T C : Q) :
  0 < T -> X * T == C ->
  - T <= 2 * Y * T - 2000 * C -> 2 * Y * T - 2000 * C <= T ->
  Qabs (Y / 10 - X * 100) <= 1 # 20.
Proof.
  intros HT HX Hlo Hhi. rewrite <- HX in Hlo, Hhi.
  apply Qabs_Qle_condition.
  assert (E : Y / 10 == Y * (1 # 10)) by field.
  rewrite E. split; nra.
Qed.

Lemma inject_Z_lt (a b : Z) : (a < b)%Z -> inject_Z a < inject_Z b.
Proof. now rewrite <- Zlt_Qlt. Qed.

Lemma inject_Z_lt_inv (a b : Z) : inject_Z a < inject_Z b -> (a < b)%Z.
Proof. now rewrite <- Zlt_Qlt. Qed.

Lemma inject_Z_le (a b : Z) : (a <= b)%Z -> inject_Z a <= inject_Z b.
Proof. now rewrite <- Zle_Qle. Qed.

Lemma inject_Z_bounds (n t c : Z) :
  inject_Z (2 * n * t - 2000 * c) == 2 * inject_Z n * inject_Z t - 2000 * inject_Z c.
Proof.
  unfold Z.sub. rewrite inject_Z_plus, inject_Z_opp, !inject_Z_mult. reflexivity.
Qed.

Variable fl : Q -> Q.
Hypothesis fl_nearest : roundsToNearest fl.

(** The text that [toFixed(1)] makes of [completed / total * 100] shows
    a number of tenths that is nearest to the exact percentage. *)
Lemma rate_nearest_tenth (c t : Z) :
  (0 <= c <= t)%Z -> (0 < t < 2 ^ 32)%Z ->
  let n := toFixed1 (fl (fl (inject_Z c / inject_Z t) * 100)) in
  (- t <= 2 * n * t - 2000 * c <= t)%Z.
Proof.
  intros Hc Ht n. subst n.
  set (C := inject_Z c). set (T := inject_Z t).
  set (X := C / T). set (q1 := fl X). set (q2 := fl (q1 * 100)).
  set (n := toFixed1 q2).
  assert (HT : 0 < T) by (apply (inject_Z_lt 0 t); lia).
  assert (HT' : T <= 4294967296) by (apply (inject_Z_le t 4294967296); lia).
  assert (HC : 0 <= C) by (apply (inject_Z_le 0 c); lia).
  assert (HCT : C <= T) by (apply (inject_Z_le c t); lia).
  assert (HT0 : ~ T == 0) by apply Qnot_eq_sym, Qlt_not_eq, HT.
  assert (HX : X * T == C) by (unfold X; now field).
  assert (HX01 : 0 <= X /\ X <= 1) by (split; nra).
  pose proof minNormal_small as Hmin. pose proof maxFinite_large as Hmax.
  assert (HXrange : X == 0 \/ (1 # 4294967296 <= X)).
  { destruct (Z.eq_dec c 0%Z) as [->|Hc0].
    - left. unfold X, C. now field.
    - right. assert (1 <= C) by (apply (inject_Z_le 1 c); lia). nra. }
  assert (H1 : Qabs (q1 - X) <= unitRoundoff * X).
  { apply fl_nearest. destruct HXrange as [H0|Hpos]; [now left|right]. split; lra. }
  unfold unitRoundoff in H1. apply Qabs_Qle_condition in H1.
  assert (H2 : Qabs (q2 - q1 * 100) <= unitRoundoff * (q1 * 100)).
  { apply fl_nearest. destruct HXrange as [H0|Hpos]; [left|right; split]; lra. }
  unfold unitRoundoff in H2. apply Qabs_Qle_condition in H2.
  pose proof (Qfloor_le (q2 * 10 + (1 # 2))) as Hfloor.
  pose proof (Qlt_floor (q2 * 10 + (1 # 2))) as Hceil.
  fold (toFixed1 q2) in Hfloor, Hceil. fold n in Hfloor, Hceil.
  rewrite inject_Z_plus in Hceil.
  change (inject_Z 1) with 1 in Hceil.
  set (Y := inject_Z n) in *.
  assert (Hup : 2 * Y * T <= 2000 * C + T + 2 * (1 # 1099511627776) * T).
  { apply (scale_up Y X T C); [exact HT | exact HX | lra]. }
  assert (Hlow : 2000 * C - T - 2 * (1 # 1099511627776) * T < 2 * Y * T).
  { apply (scale_up_lower Y X T C); [exact HT | exact HX | lra]. }
  assert (Hhi : inject_Z (2 * n * t - 2000 * c - t) < inject_Z 1).
  { unfold Z.sub at 1. rewrite inject_Z_plus, inject_Z_opp, inject_Z_bounds.
    fold Y T C. change (inject_Z 1) with 1. lra. }
  assert (Hlo : inject_Z (-1) < inject_Z (2 * n * t - 2000 * c + t)).
  { rewrite inject_Z_plus, inject_Z_bounds.
    fold Y T C. change (inject_Z (-1)) with (-1 # 1). lra. }
  apply inject_Z_lt_inv in Hhi, Hlo. lia.
Qed.

End Rounding.

(** C8. The completion rate of the statistics is the number 0 for an empty
    collection; for a collection of [total > 0] tasks it is the text, with
    one digit after the point, of a number of tenths nearest to
    [completed / total * 100], the distance being at most one half of a
    tenth. The computation is total: no collection makes it fail. The
    arithmetic is that of binary64 numbers in the standard model, and the
    collection fits in an array. *)
Theorem completionRate_one_decimal fl clock store :
  roundsToNearest fl ->
  (Z.of_nat (Map.size store) < 2 ^ 32)%Z ->
  let stats := getTaskStats fl clock store in
  let completed := completedCount (Map.values store) in
  let total := Map.size store in
  s_total stats = total /\
  (total = 0%nat -> completionRate stats = RateZero) /\
  ((0 < total)%nat ->
   exists tenths,
     completionRate stats = RateFixed tenths /\
     (Qabs (inject_Z tenths / 10
            - inject_Z (Z.of_nat completed) / inject_Z (Z.of_nat total) * 100)
      <= 1 # 20)%Q).
Proof.
  intros Hfl Hsize stats completed total.
  destruct (getTaskStats_rate fl clock store) as [Htotal Hrate].
  fold stats total completed in Htotal, Hrate.
  split; [exact Htotal|]. split.
  - intros H0. rewrite Hrate, H0. reflexivity.
  - intros Hpos. rewrite Hrate. unfold completionRateOf.
    destruct (Nat.ltb_spec 0 total) as [_|]; [|lia].
    eexists. split; [reflexivity|].
    assert (Hle : (completed <= total)%nat).
    { unfold completed, total, completedCount, Map.size, Map.values.
      etransitivity; [apply List.filter_length_le|]. now rewrite length_map. }
    assert (Hc : (0 <= Z.of_nat completed <= Z.of_nat total)%Z) by lia.
    assert (Ht : (0 < Z.of_nat total < 2 ^ 32)%Z) by (subst total; lia).
    pose proof (rate_nearest_tenth fl Hfl (Z.of_nat completed) (Z.of_nat total) Hc Ht)
      as Hn.
    cbv zeta in Hn.
    set (n := toFixed1 _) in *.
    apply (scale_down (inject_Z n) _ (inject_Z (Z.of_nat total))
                      (inject_Z (Z.of_nat completed))).
    + apply (inject_Z_lt 0). lia.
    + field. apply Qnot_eq_sym, Qlt_not_eq, (inject_Z_lt 0). lia.
    + rewrite <- inject_Z_bounds, <- inject_Z_opp.
      apply (inject_Z_le (- Z.of_nat total)). lia.
    + rewrite <- inject_Z_bounds. apply (inject_Z_le _ (Z.of_nat total)). lia.
Qed.

Lemma exact_rounding : roundsToNearest (fun q => q).
Proof.
  intros x Hx.
  assert (Hmin : (0 < minNormal)%Q) by reflexivity.
  assert (E : (x - x == 0)%Q) by ring. rewrite E.
  change (Qabs 0) with 0%Q. unfold unitRoundoff.
  destruct Hx as [H0|[Hlo _]]; [rewrite H0|]; lra.
Qed.

Lemma completionRate_one_decimal_witness :
  exists tenths,
    completionRate (getTaskStats (fun q => q) (fun _ => 1700000700000) threeTasks)
      = RateFixed tenths /\
    (Qabs (inject_Z tenths / 10 - inject_Z 1 / inject_Z 3 * 100) <= 1 # 20)%Q.
Proof.
  destruct (completionRate_one_decimal (fun q => q) (fun _ => 1700000700000) threeTasks
              exact_rounding) as (_ & _ & Hrate).
  - vm_compute. reflexivity.
  - apply Hrate. vm_compute. lia.
Defined.

(** ** The scenarios of the specification *)

Example scenario_filter_by_status :
  (fun r => map j_id (tasks r)) <$>
    match getTasks 0 scenarioStore
            (mkFilters (Some "todo") None None None None None) noPagination with
    | Ok r => Some r
    | Err _ => None
    end
  = Some ["T2"].
Proof. vm_compute. reflexivity. Qed.

Example scenario_sort_by_due_date :
  (fun r => map j_id (tasks r)) <$>
    match getTasks 0 scenarioStore (sortFilters "dueDate" "asc") noPagination with
    | Ok r => Some r
    | Err _ => None
    end
  = Some ["T1"; "T2"; "T3"].
Proof. vm_compute. reflexivity. Qed.

Example scenario_statistics :
  let stats := getTaskStats (fun q => q) (fun _ => 1700000000000) scenarioStore in
  overdue stats = 0%nat /\ completionRate stats = RateFixed 333.
Proof. vm_compute. split; reflexivity. Qed.

Example scenario_second_page :
  (fun r => (length (tasks r), pagination r)) <$>
    match getTasks 0 scenarioStore noFilters (mkPagination (Some 2) (Some 2)) with
    | Ok r => Some r
    | Err _ => None
    end
  = Some (1%nat, {| page := 2; limit := 2; total := 3; totalPages := 2;
                    hasNext := false; hasPrev := true |}).
Proof. vm_compute. reflexivity. Qed.

Example scenario_rejected_update :
  snd (updateTask 1700000000000 "T2" (statusPayload "done") scenarioStore)
  = Err (ValidationError [StatusInvalid]).
Proof. vm_compute. reflexivity. Qed.

(** * Further properties *)

(** ** The map *)

Module MapMore.

Lemma get_In {V} (m : Map.t V) k v : Map.get m k = Some v -> In (k, v) m.
Proof.
  induction m as [|[k' v'] m IH]; simpl; [discriminate|].
  destruct (String.eqb_spec k' k) as [->|Hne].
  - intros [= ->]. now left.
  - intros H. right. now apply IH.
Qed.

Lemma get_None {V} (m : Map.t V) k : Map.get m k = None <-> ~ In k (Map.keys m).
Proof.
  unfold Map.keys. induction m as [|[k' v'] m IH]; simpl; [tauto|].
  destruct (String.eqb_spec k' k) as [->|Hne].
  - split; [discriminate | intros H; exfalso; apply H; now left].
  - rewrite IH. tauto.
Qed.

Lemma get_set_ne {V} (m : Map.t V) k k' v :
  k <> k' -> Map.get (Map.set m k v) k' = Map.get m k'.
Proof.
  intros Hne. induction m as [|[k0 v0] m IH]; simpl.
  - destruct (String.eqb_spec k k'); [contradiction|reflexivity].
  - destruct (String.eqb_spec k0 k) as [->|Hne0]; simpl.
    + destruct (String.eqb_spec k k'); [contradiction|reflexivity].
    + now rewrite IH.
Qed.

Lemma keys_set {V} (m : Map.t V) k v :
  Map.keys (Map.set m k v)
  = match Map.get m k with
    | Some _ => Map.keys m
    | None => Map.keys m ++ [k]
    end.
Proof.
  unfold Map.keys. induction m as [|[k' v'] m IH]; simpl; [reflexivity|].
  destruct (String.eqb_spec k' k) as [->|Hne]; simpl; [reflexivity|].
  rewrite IH. now destruct (Map.get m k).
Qed.

Lemma In_set {V} (m : Map.t V) k v e :
  In e (Map.set m k v) -> e = (k, v) \/ In e m.
Proof.
  induction m as [|[k' v'] m IH]; simpl.
  - intros [<-|[]]. now left.
  - destruct (String.eqb k' k); simpl; intros [<-|H]; auto.
    destruct (IH H); auto.
Qed.

Lemma NoDup_set {V} (m : Map.t V) k v :
  List.NoDup (Map.keys m) -> List.NoDup (Map.keys (Map.set m k v)).
Proof.
  intros Hm. rewrite keys_set. destruct (Map.get m k) eqn:Hk; [exact Hm|].
  apply get_None in Hk.
  rewrite <- (app_nil_r (Map.keys m ++ [k])), <- app_assoc. simpl.
  apply NoDup_Add with (a := k) (l := Map.keys m).
  - rewrite <- (app_nil_r (Map.keys m)) at 1. apply Add_app.
  - now constructor.
Qed.

Lemma In_delete {V} (m : Map.t V) k e : In e (Map.delete m k) -> In e m.
Proof.
  induction m as [|[k' v'] m IH]; simpl; [auto|].
  destruct (String.eqb k' k); simpl; [auto|]. intros [<-|H]; auto.
Qed.

Lemma keys_delete_In {V} (m : Map.t V) k k' :
  In k' (Map.keys (Map.delete m k)) -> In k' (Map.keys m).
Proof.
  unfold Map.keys. rewrite !in_map_iff. intros (e & <- & He).
  exists e. split; [reflexivity|]. eapply In_delete, He.
Qed.

Lemma NoDup_delete {V} (m : Map.t V) k :
  List.NoDup (Map.keys m) -> List.NoDup (Map.keys (Map.delete m k)).
Proof.
  induction m as [|[k' v'] m IH]; simpl; [auto|].
  intros Hm. apply NoDup_cons_iff in Hm. destruct Hm as [Hk' Hm].
  destruct (String.eqb k' k); [exact Hm|]. simpl.
  apply NoDup_cons_iff. split; [|now apply IH].
  intros Hin. apply Hk'. eapply keys_delete_In, Hin.
Qed.

Lemma get_delete_eq {V} (m : Map.t V) k :
  List.NoDup (Map.keys m) -> Map.get (Map.delete m k) k = None.
Proof.
  induction m as [|[k' v'] m IH]; simpl; [reflexivity|].
  intros Hm. apply NoDup_cons_iff in Hm. destruct Hm as [Hk' Hm].
  destruct (String.eqb_spec k' k) as [->|Hne].
  - now apply get_None.
  - simpl. destruct (String.eqb_spec k' k); [contradiction|]. now apply IH.
Qed.

Lemma get_delete_ne {V} (m : Map.t V) k k' :
  k <> k' -> Map.get (Map.delete m k) k' = Map.get m k'.
Proof.
  intros Hne. induction m as [|[k0 v0] m IH]; simpl; [reflexivity|].
  destruct (String.eqb_spec k0 k) as [->|Hne0]; simpl.
  - destruct (String.eqb_spec k k'); [contradiction|reflexivity].
  - now rewrite IH.
Qed.

Lemma size_delete {V} (m : Map.t V) k :
  is_Some (Map.get m k) -> S (Map.size (Map.delete m k)) = Map.size m.
Proof.
  unfold Map.size. induction m as [|[k' v'] m IH]; simpl; intros [x Hx].
  - discriminate.
  - destruct (String.eqb k' k); simpl; [reflexivity|].
    f_equal. apply IH. eauto.
Qed.

End MapMore.

(** ** Validation *)

Lemma blank_onlySpaces s : Js.blank s = true <-> onlySpaces s.
Proof.
  unfold onlySpaces. induction s as [|c s IH]; simpl.
  - split; [intros _ c [] | reflexivity].
  - rewrite andb_true_iff, IH. split.
    + intros [Hc Hs] c' [<-|Hin]; auto.
    + intros H. split; [apply H; now left | intros c' Hc'; apply H; now right].
Qed.

Lemma blank_empty s : Js.truthy s = false -> Js.blank s = true.
Proof.
  unfold Js.truthy. destruct (String.eqb_spec s EmptyString) as [->|]; [reflexivity|discriminate].
Qed.

Lemma In_when {A} (b : bool) (v w : A) :
  In v (if b then [w] else []) <-> b = true /\ w = v.
Proof. destruct b; simpl; intuition discriminate. Qed.

Lemma violations_spec t v : In v (violations t) <-> violates v t.
Proof.
  assert (B1 : negb (Js.truthy (title t)) || Js.blank (title t) = true
               <-> onlySpaces (title t)).
  { rewrite <- blank_onlySpaces. destruct (Js.truthy (title t)) eqn:E; simpl; [tauto|].
    rewrite (blank_empty _ E). tauto. }
  assert (B2 : (100 <? Z.of_nat (String.length (title t))) = true
               <-> (100 < String.length (title t))%nat).
  { rewrite Z.ltb_lt. lia. }
  assert (B3 : Js.truthy (description t)
               && (500 <? Z.of_nat (String.length (description t))) = true
               <-> (500 < String.length (description t))%nat).
  { rewrite andb_true_iff, Z.ltb_lt, truthy_nonempty. split; [lia|].
    intros H. split; [|lia]. intros E. rewrite E in H. simpl in H. lia. }
  assert (B4 : negb (Js.arr_includes validStatuses (status t)) = true
               <-> ~ In (status t) validStatuses).
  { rewrite negb_true_iff, <- arr_includes_In.
    destruct (Js.arr_includes validStatuses (status t)); split; congruence. }
  assert (B5 : negb (Js.arr_includes validPriorities (priority t)) = true
               <-> ~ In (priority t) validPriorities).
  { rewrite negb_true_iff, <- arr_includes_In.
    destruct (Js.arr_includes validPriorities (priority t)); split; congruence. }
  assert (B6 : In v (match dueDate t with
                     | Some d => if Date_isNaN d then [DueDateInvalid] else []
                     | None => []
                     end)
               <-> dueDate t = Some InvalidDate /\ DueDateInvalid = v).
  { destruct (dueDate t) as [[ms|]|]; simpl; intuition congruence. }
  unfold violations. rewrite !in_app_iff, !In_when, B1, B2, B3, B4, B5, B6.
  destruct v; simpl; intuition congruence.
Qed.

(** X1. [validate] either accepts the task, and then no rule is violated,
    or throws one error whose list of messages names every violated rule,
    each once, and no other. *)
Theorem validate_reports_every_violation t :
  (validate t = Ok tt /\ forall v, ~ violates v t) \/
  (exists vs,
     validate t = Err (ValidationError vs) /\ vs <> [] /\ List.NoDup vs /\
     forall v, In v vs <-> violates v t).
Proof.
  assert (Hnd : List.NoDup (violations t)).
  { unfold violations.
    destruct (negb (Js.truthy (title t)) || Js.blank (title t));
      destruct (100 <? Z.of_nat (String.length (title t)));
      destruct (Js.truthy (description t)
                && (500 <? Z.of_nat (String.length (description t))));
      destruct (negb (Js.arr_includes validStatuses (status t)));
      destruct (negb (Js.arr_includes validPriorities (priority t)));
      destruct (dueDate t) as [[ms|]|]; simpl;
      repeat (constructor; [simpl; intuition discriminate|]); constructor. }
  pose proof (violations_spec t) as Hspec.
  unfold validate. destruct (violations t) as [|v0 vs] eqn:E.
  - left. split; [reflexivity|]. intros v Hv. now apply Hspec in Hv.
  - right. exists (v0 :: vs). repeat split; try assumption; try discriminate;
      apply Hspec.
Qed.

(** ** Reading back what was written *)

Lemma toJSON_id t j : toJSON t = Ok j -> j_id j = id t.
Proof. intros H. now destruct (toJSON_fields t j H). Qed.

(** X2. A task that [createTask] returns can be read back: [getTaskById]
    with the returned id gives the very same record. *)
Theorem createTask_then_getTaskById uuid now0 now1 data store j :
  snd (createTask uuid now0 now1 data store) = Ok j ->
  getTaskById (fst (createTask uuid now0 now1 data store)) (j_id j) = Ok j.
Proof.
  unfold createTask, getTaskById.
  destruct (Task_new uuid now0 now1 data) as [task|]; simpl; [|discriminate].
  intros Hj. rewrite (toJSON_id _ _ Hj), MapFacts.get_set_eq. exact Hj.
Qed.

Lemma createTask_then_getTaskById_witness :
  exists j,
    snd (createTask "9b2e-fresh" 1700000600000 1700000600001
           (titlePayload "Write the report") sampleStore) = Ok j /\
    getTaskById (fst (createTask "9b2e-fresh" 1700000600000 1700000600001
                        (titlePayload "Write the report") sampleStore)) (j_id j)
    = Ok j.
Proof.
  destruct (snd (createTask "9b2e-fresh" 1700000600000 1700000600001
                   (titlePayload "Write the report") sampleStore)) as [j|] eqn:Hj;
    [|vm_compute in Hj; discriminate].
  exists j. split; [reflexivity|].
  now apply createTask_then_getTaskById.
Defined.

(** X3. When [createTask] throws a validation error, nothing was written:
    the map is the one before the call. *)
Theorem createTask_validation_error_writes_nothing uuid now0 now1 data store vs :
  snd (createTask uuid now0 now1 data store) = Err (ValidationError vs) ->
  fst (createTask uuid now0 now1 data store) = store.
Proof.
  unfold createTask.
  destruct (Task_new uuid now0 now1 data) as [task|]; simpl; [|reflexivity].
  intros H. apply toJSON_error in H. discriminate.
Qed.

Lemma createTask_validation_error_writes_nothing_witness :
  fst (createTask "9b2e-fresh" 1700000600000 1700000600001
         (statusPayload "todo") sampleStore) = sampleStore.
Proof.
  apply (createTask_validation_error_writes_nothing "9b2e-fresh" 1700000600000
           1700000600001 (statusPayload "todo") sampleStore [TitleRequired]).
  vm_compute. reflexivity.
Defined.

(** X4. A task that [updateTask] returns can be read back under the same
    id, and the update adds no key, removes none and moves none. *)
Theorem updateTask_then_getTaskById now k data store j :
  snd (updateTask now k data store) = Ok j ->
  getTaskById (fst (updateTask now k data store)) k = Ok j /\
  Map.keys (fst (updateTask now k data store)) = Map.keys store.
Proof.
  unfold updateTask, getTaskById.
  destruct (Map.get store k) as [task|] eqn:Hget; simpl; [|discriminate].
  destruct (validate _); simpl; [|discriminate].
  intros Hj. rewrite MapFacts.get_set_eq. split; [exact Hj|].
  destruct (MapFacts.set_present store k (fst (Task_update now data task)))
    as [Hkeys _]; [eauto|].
  destruct (MapFacts.set_present (Map.set store k (fst (Task_update now data task))) k
              (fst (Task_update now data task))) as [Hkeys' _].
  { rewrite MapFacts.get_set_eq. eauto. }
  simpl in *. congruence.
Qed.

Lemma updateTask_then_getTaskById_witness :
  exists j,
    getTaskById (fst (updateTask 1700000500000 (id sampleTask)
                        (statusPayload "completed") twoTasks)) (id sampleTask) = Ok j /\
    j_status j = "completed".
Proof.
  destruct (snd (updateTask 1700000500000 (id sampleTask)
                   (statusPayload "completed") twoTasks)) as [j|] eqn:Hj;
    [|vm_compute in Hj; discriminate].
  exists j. split.
  - now apply updateTask_then_getTaskById.
  - vm_compute in Hj. now injection Hj as <-.
Defined.

(** ** Missing ids *)

Lemma toJSON_not_NotFound t : toJSON t <> Err NotFoundError.
Proof. intros H. apply toJSON_error in H. discriminate. Qed.

(** X5. [getTaskById], [updateTask] and [deleteTask] throw the not-found
    error exactly when the map has no task under the id, and then they
    leave the map as it is. *)
Theorem not_found_exactly_when_absent now k data store :
  (getTaskById store k = Err NotFoundError <-> ~ In k (Map.keys store)) /\
  (snd (updateTask now k data store) = Err NotFoundError <-> ~ In k (Map.keys store)) /\
  (snd (deleteTask k store) = Err NotFoundError <-> ~ In k (Map.keys store)) /\
  (~ In k (Map.keys store) ->
   fst (updateTask now k data store) = store /\ fst (deleteTask k store) = store).
Proof.
  rewrite <- !MapMore.get_None. unfold getTaskById, updateTask, deleteTask.
  destruct (Map.get store k) as [task|] eqn:Hget; simpl.
  - repeat split; try discriminate.
    + intros H. now apply toJSON_not_NotFound in H.
    + destruct (validate _) eqn:Hv; simpl; intros H;
        [now apply toJSON_not_NotFound in H|].
      unfold validate in Hv. destruct (violations _); discriminate || congruence.
  - repeat split; reflexivity.
Qed.

Lemma not_found_exactly_when_absent_witness :
  snd (deleteTask (id otherTask) sampleStore) = Err NotFoundError /\
  fst (updateTask 1700000000500 (id otherTask) (titlePayload "Renamed") sampleStore)
  = sampleStore.
Proof.
  pose proof (not_found_exactly_when_absent 1700000000500 (id otherTask)
                (titlePayload "Renamed") sampleStore) as (_ & _ & Hd & Hs).
  assert (Habsent : ~ In (id otherTask) (Map.keys sampleStore)).
  { intros [H|[]]. discriminate H. }
  split; [now apply Hd | now apply Hs].
Defined.

(** X6. On a well-keyed map, deleting a stored task succeeds, makes its id
    unknown, takes exactly one entry away and leaves every other id with
    the task it had. *)
Theorem deleteTask_removes_only_that_task k store :
  wellKeyed store ->
  In k (Map.keys store) ->
  let store' := fst (deleteTask k store) in
  snd (deleteTask k store) = Ok tt /\
  getTaskById store' k = Err NotFoundError /\
  S (Map.size store') = Map.size store /\
  (forall k', k' <> k -> getTaskById store' k' = getTaskById store k').
Proof.
  intros [Hnd _] Hin store'. subst store'. unfold deleteTask, getTaskById.
  destruct (Map.get store k) as [task|] eqn:Hget.
  - simpl. split; [reflexivity|]. split; [now rewrite MapMore.get_delete_eq|].
    split; [apply MapMore.size_delete; eauto|].
    intros k' Hne. now rewrite MapMore.get_delete_ne by congruence.
  - apply MapMore.get_None in Hget. contradiction.
Qed.

Lemma deleteTask_removes_only_that_task_witness :
  getTaskById (fst (deleteTask (id sampleTask) twoTasks)) (id sampleTask)
  = Err NotFoundError.
Proof.
  apply (deleteTask_removes_only_that_task (id sampleTask) twoTasks).
  - split.
    + repeat constructor; simpl; intuition discriminate.
    + repeat constructor.
  - simpl. auto.
Defined.

(** ** Invariants of the map *)

Lemma wellKeyed_set store k task :
  wellKeyed store -> id task = k -> wellKeyed (Map.set store k task).
Proof.
  intros [Hnd Hid] Hk. split; [now apply MapMore.NoDup_set|].
  rewrite List.Forall_forall in *. intros e He.
  apply MapMore.In_set in He. destruct He as [->|He]; [exact Hk | now apply Hid].
Qed.

Lemma wellKeyed_delete store k : wellKeyed store -> wellKeyed (Map.delete store k).
Proof.
  intros [Hnd Hid]. split; [now apply MapMore.NoDup_delete|].
  rewrite List.Forall_forall in *. intros e He. eapply Hid, MapMore.In_delete, He.
Qed.

Lemma wellKeyed_get store k task :
  wellKeyed store -> Map.get store k = Some task -> id task = k.
Proof.
  intros [_ Hid] Hget. apply MapMore.get_In in Hget.
  rewrite List.Forall_forall in Hid. exact (Hid _ Hget).
Qed.

Lemma wellKeyed_step store op : wellKeyed store -> wellKeyed (step store op).
Proof.
  intros Hw. destruct op as [uuid now0 now1 data|now k data|k|]; simpl.
  - unfold createTask. destruct (Task_new uuid now0 now1 data) as [task|]; simpl;
      [now apply wellKeyed_set | exact Hw].
  - unfold updateTask. destruct (Map.get store k) as [task|] eqn:Hget; simpl; [|exact Hw].
    pose proof (wellKeyed_get _ _ _ Hw Hget) as Hid.
    destruct (validate _); simpl; repeat apply wellKeyed_set; assumption.
  - unfold deleteTask. destruct (Map.get store k); simpl;
      [now apply wellKeyed_delete | exact Hw].
  - split; constructor.
Qed.

(** X7. Whatever calls are made, in whatever order and with whatever
    outcome, the map of the service never holds two tasks under one id,
    and every task is filed under its own id. *)
Theorem service_map_stays_well_keyed ops store :
  wellKeyed store -> wellKeyed (run ops store).
Proof.
  unfold run. revert store. induction ops as [|op ops IH]; intros store Hw; simpl.
  - exact Hw.
  - apply IH. now apply wellKeyed_step.
Qed.

Lemma service_map_stays_well_keyed_witness :
  wellKeyed (run [OpCreate "9b2e-fresh" 1700000600000 1700000600001
                    (titlePayload "Write the report");
                  OpUpdate 1700000700000 "9b2e-fresh" (statusPayload "bogus");
                  OpDelete "missing"] []).
Proof.
  apply service_map_stays_well_keyed. split; constructor.
Defined.

Lemma allValid_set store k task :
  allValid store -> validate task = Ok tt -> allValid (Map.set store k task).
Proof.
  unfold allValid, Map.values. rewrite !List.Forall_forall.
  intros Hs Ht t Hin. apply in_map_iff in Hin. destruct Hin as ([k' t'] & <- & He).
  apply MapMore.In_set in He. destruct He as [[= -> ->]|He]; [exact Ht|].
  apply Hs. apply in_map_iff. now exists (k', t').
Qed.

Lemma Task_new_valid uuid now0 now1 data task :
  Task_new uuid now0 now1 data = Ok task -> validate task = Ok tt.
Proof.
  unfold Task_new, bind. destruct (validate _) as [[]|] eqn:Hv; [|discriminate].
  now intros [= <-].
Qed.

(** X8. If every stored task satisfies the rules of [validate], it is
    still so after any call that is not an update rejected by
    [validate]: creation, accepted update, deletion and clearing never
    leave an invalid task in the map. *)
Theorem valid_tasks_stay_valid store op :
  allValid store ->
  ~ rejectedUpdate store op ->
  allValid (step store op).
Proof.
  intros Hs Hop. destruct op as [uuid now0 now1 data|now k data|k|]; simpl.
  - unfold createTask. destruct (Task_new uuid now0 now1 data) as [task|] eqn:Hnew; simpl;
      [|exact Hs].
    apply allValid_set; [exact Hs | eapply Task_new_valid, Hnew].
  - simpl in Hop. unfold updateTask in *.
    destruct (Map.get store k) as [task|]; simpl in *; [|exact Hs].
    destruct (validate _) as [[]|e] eqn:Hv; simpl in *.
    + now repeat apply allValid_set.
    + exfalso. apply Hop. unfold validate in Hv.
      destruct (violations _) as [|v vs]; [discriminate|]. injection Hv as <-. eauto.
  - unfold deleteTask. destruct (Map.get store k) as [task|]; simpl; [|exact Hs].
    unfold allValid, Map.values in *. rewrite !List.Forall_forall in *.
    intros x Hin. apply in_map_iff in Hin. destruct Hin as (e & <- & He).
    apply Hs. apply in_map_iff. exists e. split; [reflexivity|].
    eapply MapMore.In_delete, He.
  - constructor.
Qed.

Lemma valid_tasks_stay_valid_witness :
  allValid (step twoTasks (OpUpdate 1700000500000 (id sampleTask) (statusPayload "completed"))).
Proof.
  apply valid_tasks_stay_valid.
  - repeat constructor.
  - intros [vs H]. vm_compute in H. discriminate.
Defined.

(** ** What an update changes *)

(** X9. A successful update never changes the id nor the creation time of
    the task, even when the payload carries an [id] or a [createdAt]; it
    sets [updatedAt] to the time of the call, gives each text field the
    value that the payload supplies, and keeps the fields that the
    payload leaves undefined. *)
Theorem updateTask_changes_supplied_fields_only now k data store task j :
  Map.get store k = Some task ->
  snd (updateTask now k data store) = Ok j ->
  j_id j = id task /\
  createdAt task = Instant (j_createdAt j) /\
  j_updatedAt j = now /\
  j_title j = default (title task) (p_title data) /\
  j_description j = default (description task) (p_description data) /\
  j_status j = default (status task) (p_status data) /\
  j_priority j = default (priority task) (p_priority data) /\
  (p_tags data = TagsUndefined -> j_tags j = tags task) /\
  (p_dueDate data = DueUndefined -> option_map Instant (j_dueDate j) = dueDate task).
Proof.
  intros Hget. unfold updateTask. rewrite Hget. simpl.
  destruct (validate _); simpl; [|discriminate].
  intros Hj. destruct (toJSON_fields _ _ Hj) as (Hid & Htitle & Hdesc & Hstatus & Hprio & Htags).
  destruct (toJSON_timestamps _ _ Hj) as [Hcreated Hupdated]. simpl in *.
  repeat split.
  - exact Hid.
  - exact Hcreated.
  - congruence.
  - rewrite Htitle. now destruct (p_title data).
  - rewrite Hdesc. now destruct (p_description data).
  - rewrite Hstatus. now destruct (p_status data).
  - rewrite Hprio. now destruct (p_priority data).
  - intros E. rewrite Htags, E. reflexivity.
  - intros E. unfold toJSON, bind in Hj. simpl in Hj. rewrite E in Hj.
    destruct (dueDate task) as [[ms|]|]; simpl in Hj; try discriminate;
      destruct (createdAt task); simpl in Hj; try discriminate;
      now injection Hj as <-.
Qed.

Lemma updateTask_changes_supplied_fields_only_witness :
  exists j,
    snd (updateTask 1700000500000 (id sampleTask)
           (idPayload "another-id" "Review the code again") twoTasks) = Ok j /\
    j_id j = id sampleTask /\ j_title j = "Review the code again".
Proof.
  destruct (snd (updateTask 1700000500000 (id sampleTask)
                   (idPayload "another-id" "Review the code again") twoTasks))
    as [j|] eqn:Hj; [|vm_compute in Hj; discriminate].
  exists j. split; [reflexivity|].
  destruct (updateTask_changes_supplied_fields_only 1700000500000 (id sampleTask)
              (idPayload "another-id" "Review the code again") twoTasks sampleTask j
              eq_refl Hj) as (Hid & _ & _ & Htitle & _).
  split; [exact Hid | exact Htitle].
Defined.

(** ** The empty map *)

(** X10. After [clearAllTasks], every id is unknown, every query, whatever
    its filters, sort and pagination, answers with an empty page and a
    total of 0 tasks in 0 pages, and the statistics count 0 tasks with a
    completion rate of 0. *)
Theorem clearAllTasks_empties_everything tz fl clock store filters pg k :
  let store' := clearAllTasks store in
  getTaskById store' k = Err NotFoundError /\
  (exists r,
     getTasks tz store' filters pg = Ok r /\
     tasks r = [] /\ total (pagination r) = 0 /\ totalPages (pagination r) = 0) /\
  s_total (getTaskStats fl clock store') = 0%nat /\
  overdue (getTaskStats fl clock store') = 0%nat /\
  completionRate (getTaskStats fl clock store') = RateZero.
Proof.
  simpl. split; [reflexivity|]. split; [|repeat split; reflexivity].
  assert (Hnone : applySort tz filters (applyFilters filters (Map.values [])) = []).
  { assert (Hf : applyFilters filters (Map.values []) = []).
    { unfold applyFilters, filterByTags, filterBySearch, filterByPriority, filterByStatus.
      simpl.
      destruct (f_status filters) as [s|]; [destruct (Js.truthy s)|];
        (destruct (f_priority filters) as [p|]; [destruct (Js.truthy p)|]);
        (destruct (f_search filters) as [q|]; [destruct (Js.truthy q)|]);
        (destruct (f_tags filters) as [[|w ws]|]); reflexivity. }
    rewrite Hf. unfold applySort.
    destruct (f_sortBy filters) as [s|]; [destruct (Js.truthy s)|]; reflexivity. }
  unfold getTasks, clearAllTasks, Map.clear. rewrite Hnone.
  unfold Js.slice. rewrite skipn_nil, firstn_nil. simpl.
  eexists. split; [reflexivity|]. simpl. repeat split.
Qed.

(** ** Due dates *)

(** X11. A task is overdue exactly when it has a valid due date that is
    strictly earlier than the instant of the call and its status is not
    [completed]; once overdue, it stays overdue at every later instant. *)
Theorem isOverdue_exactly now t :
  (isOverdue now t = true <->
   status t <> "completed" /\ exists due, dueDate t = Some (Instant due) /\ due < now) /\
  (forall later, isOverdue now t = true -> now <= later -> isOverdue later t = true).
Proof.
  unfold isOverdue. split.
  - destruct (dueDate t) as [[due|]|]; simpl.
    + destruct (String.eqb_spec (status t) "completed") as [E|E].
      * split; [discriminate | tauto].
      * rewrite Z.ltb_lt. split.
        -- intros H. split; [exact E|]. now exists due.
        -- now intros (_ & due' & [= <-] & H).
    + destruct (String.eqb (status t) "completed");
        (split; [discriminate | intros (_ & due & H & _); discriminate]).
    + split; [discriminate | intros (_ & due & H & _); discriminate].
  - intros later. destruct (dueDate t) as [[due|]|]; simpl; try discriminate;
      destruct (String.eqb (status t) "completed"); try discriminate.
    rewrite !Z.ltb_lt. lia.
Qed.

Lemma isOverdue_exactly_witness :
  isOverdue 1700172800001 sampleTask = true /\
  isOverdue 1700172800002 sampleTask = true.
Proof.
  pose proof (isOverdue_exactly 1700172800001 sampleTask) as [Hiff Hlater].
  assert (H : isOverdue 1700172800001 sampleTask = true).
  { apply Hiff. split; [discriminate|]. exists 1700172800000. split; [reflexivity | lia]. }
  split; [exact H | apply Hlater; [exact H | lia]].
Defined.



(** ** Filtering, once more *)

Lemma matchesSearch_complete term (task : Task) :
  occursIgnoringCase term (title task) \/
  occursIgnoringCase term (description task) \/
  (exists tag, In tag (tags task) /\ occursIgnoringCase term tag) ->
  matchesSearch (Js.toLowerCase term) task = true.
Proof.
  unfold matchesSearch, occursIgnoringCase.
  rewrite !orb_true_iff, !includes_spec, existsb_exists.
  intros [H|[H|(tag & Hin & H)]]; [now left; left | now left; right |].
  right. exists tag. now rewrite includes_spec.
Qed.

Lemma matchesTags_complete wanted (task : Task) :
  (exists tag, In tag wanted /\ In tag (tags task)) -> matchesTags wanted task = true.
Proof.
  unfold matchesTags. rewrite existsb_exists.
  intros (tag & Hin & H). exists tag. now rewrite arr_includes_In.
Qed.

Lemma applyFilters_complete filters l t :
  In t l -> passes filters t -> In t (applyFilters filters l).
Proof.
  intros Hin (Pstatus & Ppriority & Psearch & Ptags). unfold applyFilters.
  assert (H1 : In t (filterByStatus filters l)).
  { unfold filterByStatus. destruct (f_status filters) as [s|] eqn:E; [|exact Hin].
    destruct (Js.truthy s) eqn:Hs; [|exact Hin].
    apply filter_In. split; [exact Hin|]. apply String.eqb_eq.
    apply Pstatus; [reflexivity | now apply truthy_nonempty]. }
  assert (H2 : In t (filterByPriority filters (filterByStatus filters l))).
  { unfold filterByPriority. destruct (f_priority filters) as [p|] eqn:E; [|exact H1].
    destruct (Js.truthy p) eqn:Hp; [|exact H1].
    apply filter_In. split; [exact H1|]. apply String.eqb_eq.
    apply Ppriority; [reflexivity | now apply truthy_nonempty]. }
  assert (H3 : In t (filterBySearch filters
                       (filterByPriority filters (filterByStatus filters l)))).
  { unfold filterBySearch. destruct (f_search filters) as [s|] eqn:E; [|exact H2].
    destruct (Js.truthy s) eqn:Hs; [|exact H2].
    apply filter_In. split; [exact H2|].
    apply Psearch; [reflexivity | now apply truthy_nonempty]. }
  unfold filterByTags. destruct (f_tags filters) as [wanted|] eqn:E; [|exact H3].
  destruct wanted as [|w wanted]; [exact H3|].
  change (0 <? Z.of_nat (length (w :: wanted))) with true. cbv iota.
  apply filter_In. split; [exact H3|]. now apply Ptags.
Qed.

Lemma valid_status_nonempty s : In s validStatuses -> s <> EmptyString.
Proof. intros H. apply (In_nonempty s validStatuses H). simpl. intuition discriminate. Qed.

Lemma valid_priority_nonempty p : In p validPriorities -> p <> EmptyString.
Proof. intros H. apply (In_nonempty p validPriorities H). simpl. intuition discriminate. Qed.

(** X13. For a filter specification within the query contract, the
    filters of [getTasks] keep exactly the tasks that satisfy every
    active filter: no matching task is lost and no other task gets
    through. *)
Theorem applyFilters_keeps_exactly_the_matches filters l t :
  validFilters filters ->
  (In t (applyFilters filters l) <-> In t l /\ matches filters t).
Proof.
  intros (Vstatus & Vpriority & Vsearch). split.
  - intros H. apply applyFilters_sound in H.
    destruct H as (Hin & Pstatus & Ppriority & Psearch & Ptags).
    split; [exact Hin|]. repeat split.
    + intros s Hs. apply Pstatus; [exact Hs|]. now apply valid_status_nonempty, Vstatus.
    + intros p Hp. apply Ppriority; [exact Hp|].
      now apply valid_priority_nonempty, Vpriority.
    + intros term Hterm. apply matchesSearch_spec, Psearch; [exact Hterm|].
      destruct (Vsearch term Hterm) as [Hlen _]. intros ->. simpl in Hlen. lia.
    + intros wanted Hwanted Hne. now apply matchesTags_spec, Ptags.
  - intros (Hin & Mstatus & Mpriority & Msearch & Mtags).
    apply applyFilters_complete; [exact Hin|]. repeat split.
    + intros s Hs _. now apply Mstatus.
    + intros p Hp _. now apply Mpriority.
    + intros term Hterm _. now apply matchesSearch_complete, Msearch.
    + intros wanted Hwanted Hne. now apply matchesTags_complete, Mtags.
Qed.

Lemma applyFilters_keeps_exactly_the_matches_witness :
  In otherTask (applyFilters searchFilters (Map.values twoTasks)) /\
  ~ In sampleTask (applyFilters searchFilters (Map.values twoTasks)).
Proof.
  assert (Hvalid : validFilters searchFilters).
  { split; [|split]; intros s [= <-]; simpl; auto; lia. }
  split.
  - apply (applyFilters_keeps_exactly_the_matches searchFilters _ otherTask Hvalid).
    split; [simpl; auto|]. repeat split.
    + now intros s [= <-].
    + now intros p [= <-].
    + intros term [= <-]. right. right. exists "api". split; [simpl; auto|].
      now exists EmptyString, EmptyString.
    + intros wanted [= <-] _. exists "api". simpl. auto.
  - intros H.
    apply (applyFilters_keeps_exactly_the_matches searchFilters _ sampleTask Hvalid) in H.
    destruct H as (_ & Hstatus & _). specialize (Hstatus "in_progress" eq_refl).
    discriminate.
Defined.

(** ** The search term *)

Lemma lower_char_idempotent c : Js.lower_char (Js.lower_char c) = Js.lower_char c.
Proof. destruct c as [[] [] [] [] [] [] [] []]; reflexivity. Qed.

Lemma toLowerCase_idempotent s : Js.toLowerCase (Js.toLowerCase s) = Js.toLowerCase s.
Proof. induction s as [|c s IH]; simpl; [reflexivity|]. now rewrite lower_char_idempotent, IH. Qed.

Lemma toLowerCase_truthy s : Js.truthy (Js.toLowerCase s) = Js.truthy s.
Proof. now destruct s. Qed.

(** X14. The search does not depend on the case of the letters of the
    search term: two terms that differ only by case give the same
    answer, whatever the other parameters are. *)
Theorem search_term_case_is_ignored tz store filters pg s1 s2 :
  Js.toLowerCase s1 = Js.toLowerCase s2 ->
  getTasks tz store (withSearch filters s1) pg
  = getTasks tz store (withSearch filters s2) pg.
Proof.
  intros E.
  assert (Hf : forall l, filterBySearch (withSearch filters s1) l
                         = filterBySearch (withSearch filters s2) l).
  { intros l. unfold filterBySearch. cbn [f_search withSearch].
    rewrite <- (toLowerCase_truthy s1), <- (toLowerCase_truthy s2), E.
    reflexivity. }
  unfold getTasks.
  assert (Hseq : applySort tz (withSearch filters s1)
                   (applyFilters (withSearch filters s1) (Map.values store))
                 = applySort tz (withSearch filters s2)
                     (applyFilters (withSearch filters s2) (Map.values store))).
  { unfold applyFilters.
    change (filterByStatus (withSearch filters s1)) with (filterByStatus filters).
    change (filterByStatus (withSearch filters s2)) with (filterByStatus filters).
    change (filterByPriority (withSearch filters s1)) with (filterByPriority filters).
    change (filterByPriority (withSearch filters s2)) with (filterByPriority filters).
    rewrite Hf. reflexivity. }
  now rewrite Hseq.
Qed.

Lemma search_term_case_is_ignored_witness :
  getTasks 0 twoTasks (withSearch noFilters "API") noPagination
  = getTasks 0 twoTasks (withSearch noFilters "Api") noPagination.
Proof.
  apply search_term_case_is_ignored. reflexivity.
Defined.

(** ** Sorting, once more *)












Section OrderSort.

Context {A : Type}.
Variable compare : A -> A -> Z.
Variable follows : A -> A -> bool.
Variable P : A -> Prop.
Hypothesis compare_follows :
  forall x y, P x -> P y -> (0 <? compare x y) = follows x y.
Hypothesis follows_asym :
  forall x y, P x -> P y -> follows x y = true -> follows y x = false.
Hypothesis follows_negtrans :
  forall x y z, P x -> P y -> P z ->
                follows x y = false -> follows y z = false -> follows x z = false.



End OrderSort.









(** ** Statistics, once more *)

Lemma increment_present obj k n :
  String.eqb k "__proto__" = false ->
  obj !! k = Some (Count n) ->
  increment obj k !! k = Some (Count (S n)).
Proof.
  intros Hk Hn. unfold increment, assign. rewrite Hn, Hk.
  rewrite lookup_insert_eq. now rewrite Nat.add_1_r.
Qed.

Lemma countTask_counts (entries : list (Z * Task)) sc pc oc s p n m :
  String.eqb s "__proto__" = false ->
  String.eqb p "__proto__" = false ->
  sc !! s = Some (Count n) ->
  pc !! p = Some (Count m) ->
  let '(sc', pc', oc') := fold_left countTask entries (sc, pc, oc) in
  sc' !! s = Some (Count (n + countStatus s (map snd entries))) /\
  pc' !! p = Some (Count (m + countPriority p (map snd entries))) /\
  oc' = (oc + length (List.filter (fun '(now, t) => isOverdue now t) entries))%nat.
Proof.
  intros Hs Hp. revert sc pc oc n m.
  induction entries as [|[now task] entries IH]; intros sc pc oc n m Hn Hm.
  - simpl. now rewrite !Nat.add_0_r.
  - cbn [fold_left countTask].
    assert (Hn' : increment sc (status task) !! s
                  = Some (Count (n + if String.eqb (status task) s then 1 else 0))).
    { destruct (String.eqb_spec (status task) s) as [->|Hne].
      - rewrite (increment_present _ _ n Hs Hn). f_equal. f_equal. lia.
      - rewrite increment_other by exact Hne. rewrite Hn. f_equal. f_equal. lia. }
    assert (Hm' : increment pc (priority task) !! p
                  = Some (Count (m + if String.eqb (priority task) p then 1 else 0))).
    { destruct (String.eqb_spec (priority task) p) as [->|Hne].
      - rewrite (increment_present _ _ m Hp Hm). f_equal. f_equal. lia.
      - rewrite increment_other by exact Hne. rewrite Hm. f_equal. f_equal. lia. }
    specialize (IH _ _ (if isOverdue now task then S oc else oc) _ _ Hn' Hm').
    destruct (fold_left countTask entries _) as [[sc' pc'] oc'].
    destruct IH as (IH1 & IH2 & IH3). unfold countStatus, countPriority in *.
    cbn [map snd List.filter].
    destruct (String.eqb (status task) s), (String.eqb (priority task) p),
             (isOverdue now task);
      cbn [length]; rewrite IH1, IH2, IH3;
      (split; [do 2 f_equal; lia | split; [do 2 f_equal; lia | lia]]).
Qed.

Lemma valid_name_not_proto s :
  In s validStatuses \/ In s validPriorities -> String.eqb s "__proto__" = false.
Proof. simpl. intuition (subst; reflexivity). Qed.

Lemma countStatus_partition (l : list Task) :
  Forall (fun t => In (status t) validStatuses) l ->
  (countStatus "todo" l + countStatus "in_progress" l + countStatus "completed" l)%nat
  = length l.
Proof.
  unfold countStatus. induction 1 as [|t l Ht _ IH]; [reflexivity|].
  cbn [List.filter length]. simpl in Ht.
  destruct Ht as [<-|[<-|[<-|[]]]]; simpl; lia.
Qed.

(** X17. The statistics count, for each of the three statuses and each of
    the three priorities, exactly the tasks that have it, whatever the
    other tasks hold; when every stored status is one of the three, the
    three status counts add up to the total. *)
Theorem getTaskStats_counts_by_status_and_priority fl clock store s p :
  In s validStatuses ->
  In p validPriorities ->
  let stats := getTaskStats fl clock store in
  byStatus stats !! s = Some (Count (countStatus s (Map.values store))) /\
  byPriority stats !! p = Some (Count (countPriority p (Map.values store))) /\
  (Forall (fun t => In (status t) validStatuses) (Map.values store) ->
   (countStatus "todo" (Map.values store) + countStatus "in_progress" (Map.values store)
    + countStatus "completed" (Map.values store))%nat = s_total stats).
Proof.
  intros Hs Hp. simpl. unfold getTaskStats.
  assert (Hs0 : initialStatusCounts !! s = Some (Count 0)).
  { simpl in Hs. destruct Hs as [<-|[<-|[<-|[]]]]; reflexivity. }
  assert (Hp0 : initialPriorityCounts !! p = Some (Count 0)).
  { simpl in Hp. destruct Hp as [<-|[<-|[<-|[]]]]; reflexivity. }
  pose proof (countTask_counts
                (imap (fun i task => (clock i, task)) (Map.values store))
                initialStatusCounts initialPriorityCounts 0%nat s p 0%nat 0%nat
                (valid_name_not_proto s (or_introl Hs))
                (valid_name_not_proto p (or_intror Hp)) Hs0 Hp0) as H.
  rewrite imap_snd in H.
  destruct (fold_left countTask _ _) as [[sc pc] oc].
  destruct H as (H1 & H2 & _). cbn [byStatus byPriority s_total].
  split; [exact H1|]. split; [exact H2|]. apply countStatus_partition.
Qed.

Lemma getTaskStats_counts_by_status_and_priority_witness :
  byStatus (getTaskStats (fun q => q) (fun _ => 1700000700000) threeTasks) !! "todo"
  = Some (Count 1).
Proof.
  destruct (getTaskStats_counts_by_status_and_priority (fun q => q)
              (fun _ => 1700000700000) threeTasks "todo" "low") as [H _].
  - simpl. auto.
  - simpl. auto.
  - exact H.
Defined.

(** X18. The overdue figure of the statistics is the number of tasks that
    are overdue, each at the instant at which the loop examines it; a
    completed task and a task without a due date are never among
    them. *)
Theorem getTaskStats_counts_overdue fl clock store :
  overdue (getTaskStats fl clock store)
  = length (overdueAt clock (Map.values store)) /\
  Forall (fun '(now, t) =>
            status t <> "completed" /\
            exists due, dueDate t = Some (Instant due) /\ due < now)
         (overdueAt clock (Map.values store)).
Proof.
  split.
  - unfold getTaskStats.
    pose proof (countTask_counts
                  (imap (fun i task => (clock i, task)) (Map.values store))
                  initialStatusCounts initialPriorityCounts 0%nat "todo" "low" 0%nat 0%nat
                  eq_refl eq_refl eq_refl eq_refl) as H.
    destruct (fold_left countTask _ _) as [[sc pc] oc].
    destruct H as (_ & _ & H). cbn [overdue]. exact H.
  - unfold overdueAt. apply List.Forall_forall. intros [now t] Hin.
    apply filter_In in Hin. destruct Hin as [_ Hover].
    now apply isOverdue_exactly in Hover.
Qed.

(** ** The other aggregation handlers *)

Lemma toJSON_dueDate t j :
  toJSON t = Ok j -> dueDate t = option_map Instant (j_dueDate j).
Proof.
  unfold toJSON, bind.
  destruct (dueDate t) as [[ms|]|]; simpl; try discriminate;
    destruct (toISOString (createdAt t)); simpl; try discriminate;
    destruct (toISOString (updatedAt t)); simpl; try discriminate;
    now intros [= <-].
Qed.

Lemma overdueJSON_isOverdue now t j :
  toJSON t = Ok j -> overdueJSON now j = isOverdue now t.
Proof.
  intros Hj. unfold overdueJSON, isOverdue.
  rewrite (toJSON_dueDate t j Hj).
  destruct (toJSON_fields t j Hj) as (_ & _ & _ & -> & _).
  now destruct (j_dueDate j).
Qed.

Lemma overdue_counts_agree_gen (ts : list Task) (js : list TaskJSON) :
  Forall2 (fun t j => toJSON t = Ok j) ts js ->
  forall (F : nat -> Task -> Z * Task) (G : nat -> TaskJSON -> Z * TaskJSON)
         (clock : nat -> Z),
    (forall i t, F i t = (clock i, t)) ->
    (forall i j, G i j = (clock i, j)) ->
    length (List.filter (fun '(now, task) => overdueJSON now task) (imap G js))
    = length (List.filter (fun '(now, t) => isOverdue now t) (imap F ts)).
Proof.
  induction 1 as [|t j ts js Hj _ IH]; intros F G clock HF HG; [reflexivity|].
  cbn [imap List.filter]. rewrite HF, HG, (overdueJSON_isOverdue _ t j Hj).
  specialize (IH (F ∘ S) (G ∘ S) (clock ∘ S) (fun i t' => HF (S i) t')
                 (fun i j' => HG (S i) j')).
  destruct (isOverdue (clock 0%nat) t); cbn [length]; now rewrite IH.
Qed.

Lemma overdue_counts_agree (clock : nat -> Z) (ts : list Task) (js : list TaskJSON) :
  Forall2 (fun t j => toJSON t = Ok j) ts js ->
  length (List.filter (fun '(now, task) => overdueJSON now task)
            (imap (fun i task => (clock i, task)) js))
  = length (overdueAt clock ts).
Proof.
  intros H. unfold overdueAt.
  now apply (overdue_counts_agree_gen ts js H _ _ clock).
Qed.

Lemma getTasks_default_all tz store result :
  (Map.size store <= 10)%nat ->
  getTasks tz store noFilters noPagination = Ok result ->
  Forall2 (fun t j => toJSON t = Ok j) (Map.values store) (tasks result).
Proof.
  intros Hsize Hr. pose proof (getTasks_default tz store) as H.
  rewrite Hr in H. simpl in H.
  rewrite firstn_all2 in H by (unfold Map.values, Map.size in *; rewrite length_map; lia).
  destruct (mapM toJSON (Map.values store)) as [js|] eqn:Hmap; [|discriminate].
  injection H as ->. now apply mapM_Forall2.
Qed.

(** X19. For a collection of at most ten tasks, the count that
    [GET /api/stats/overdue] answers is the overdue figure of the
    statistics, the clock being read alike; the tasks it lists are neither
    completed nor without a due date. *)
Theorem statsOverdue_agrees_with_statistics tz fl clock store body :
  (Map.size store <= 10)%nat ->
  statsOverdue tz clock store = Json body ->
  o_count body = overdue (getTaskStats fl clock store) /\
  o_count body = length (o_tasks body) /\
  Forall (fun j => j_status j <> "completed" /\ j_dueDate j <> None) (o_tasks body).
Proof.
  intros Hsize. unfold statsOverdue.
  destruct (getTasks tz store noFilters noPagination) as [result|] eqn:Hr; [|discriminate].
  intros [= <-]. cbn [o_count o_tasks].
  pose proof (getTasks_default_all tz store result Hsize Hr) as Hall.
  split; [|split].
  - rewrite length_map, (overdue_counts_agree clock _ _ Hall).
    symmetry. apply getTaskStats_counts_overdue.
  - reflexivity.
  - apply List.Forall_forall. intros j Hin. apply in_map_iff in Hin.
    destruct Hin as ([now j'] & <- & Hin). apply filter_In in Hin.
    destruct Hin as [_ Hover]. unfold overdueJSON in Hover. simpl.
    destruct (j_dueDate j'); [|discriminate].
    destruct (String.eqb_spec (j_status j') "completed"); [discriminate|].
    split; [assumption | discriminate].
Qed.

Lemma statsOverdue_agrees_with_statistics_witness :
  exists body,
    statsOverdue 0 (fun _ => 1700300000000) twoTasks = Json body /\
    o_count body = overdue (getTaskStats (fun q => q) (fun _ => 1700300000000) twoTasks).
Proof.
  destruct (statsOverdue 0 (fun _ => 1700300000000) twoTasks) as [body|] eqn:Hbody;
    [|vm_compute in Hbody; discriminate].
  exists body. split; [reflexivity|].
  apply (statsOverdue_agrees_with_statistics 0 (fun q => q) (fun _ => 1700300000000)
           twoTasks body); [|exact Hbody].
  vm_compute. lia.
Defined.

Lemma Forall2_same_length {A B} (R : A -> B -> Prop) xs ys :
  Forall2 R xs ys -> length xs = length ys.
Proof. induction 1; simpl; congruence. Qed.

Lemma first_page_of_filter tz store filters (keep : Task -> bool) result :
  applySort tz filters (applyFilters filters (Map.values store))
  = List.filter keep (Map.values store) ->
  getTasks tz store filters noPagination = Ok result ->
  Forall2 (fun t j => toJSON t = Ok j)
          (firstn 10 (List.filter keep (Map.values store))) (tasks result).
Proof.
  intros Hseq. unfold getTasks. rewrite Hseq.
  change (num_or (p_page noPagination) 1) with 1.
  change (num_or (p_limit noPagination) 10) with 10.
  change ((1 - 1) * 10) with 0. change (0 + 10) with 10.
  rewrite slice_first_page. unfold bind.
  destruct (mapM toJSON _) as [js|] eqn:Hmap; [|discriminate].
  intros [= <-]. cbn [tasks]. now apply mapM_Forall2.
Qed.

Lemma group_page (keep : Task -> bool) (l : list Task) (js : list TaskJSON)
    (P : TaskJSON -> Prop) :
  (forall t j, keep t = true -> toJSON t = Ok j -> P j) ->
  Forall2 (fun t j => toJSON t = Ok j) (firstn 10 (List.filter keep l)) js ->
  Forall P js /\ length js = Nat.min 10 (length (List.filter keep l)).
Proof.
  intros HP H. split.
  - apply Forall2_sources in H. eapply List.Forall_impl; [|exact H].
    intros j (t & Hin & Hj). apply (HP t j); [|exact Hj].
    apply list_elem_of_In, (subseteq_take 10), list_elem_of_In in Hin.
    now apply filter_In in Hin.
  - rewrite <- (Forall2_same_length _ _ _ H). apply length_firstn.
Qed.

(** X20. [GET /api/stats/status/:status] answers 400 for a status that is
    not one of the three; otherwise the tasks it lists all have that
    status, and their count is the number of stored tasks with that
    status, capped at ten. [GET /api/stats/priority/:priority] does the
    same with priorities. *)
Theorem stats_groups_are_capped_at_ten tz key store :
  (~ In key validStatuses -> statsByStatus tz key store = Failure 400) /\
  (forall body,
     statsByStatus tz key store = Json body ->
     In key validStatuses /\ g_key body = key /\
     Forall (fun j => j_status j = key) (g_tasks body) /\
     g_count body = Nat.min 10 (countStatus key (Map.values store))) /\
  (~ In key validPriorities -> statsByPriority tz key store = Failure 400) /\
  (forall body,
     statsByPriority tz key store = Json body ->
     In key validPriorities /\ g_key body = key /\
     Forall (fun j => j_priority j = key) (g_tasks body) /\
     g_count body = Nat.min 10 (countPriority key (Map.values store))).
Proof.
  unfold statsByStatus, statsByPriority. repeat split.
  - intros Hout. destruct (Js.arr_includes validStatuses key) eqn:E; [|reflexivity].
    apply arr_includes_In in E. contradiction.
  - destruct (Js.arr_includes validStatuses key) eqn:E; [|discriminate].
    now apply arr_includes_In.
  - destruct (Js.arr_includes validStatuses key); [|discriminate]. simpl in H.
    destruct (getTasks _ _ _ _); [|discriminate]. now injection H as <-.
  - destruct (Js.arr_includes validStatuses key) eqn:E; [|discriminate]. simpl in H.
    destruct (getTasks _ _ _ _) as [result|] eqn:Hr; [|discriminate].
    injection H as <-. cbn [g_tasks].
    apply arr_includes_In, valid_status_nonempty, truthy_nonempty in E.
    refine (proj1 (group_page (fun t => String.eqb (status t) key) (Map.values store) _ _
                     _ (first_page_of_filter tz store _ _ result _ Hr))).
    + intros t j Hk Hj. destruct (toJSON_fields t j Hj) as (_ & _ & _ & -> & _).
      now apply String.eqb_eq.
    + unfold applySort, applyFilters, filterByTags, filterBySearch, filterByPriority,
        filterByStatus. cbn [f_status f_priority f_search f_tags f_sortBy].
      now rewrite E.
  - destruct (Js.arr_includes validStatuses key) eqn:E; [|discriminate]. simpl in H.
    destruct (getTasks _ _ _ _) as [result|] eqn:Hr; [|discriminate].
    injection H as <-. cbn [g_count].
    apply arr_includes_In, valid_status_nonempty, truthy_nonempty in E.
    refine (proj2 (group_page (fun t => String.eqb (status t) key) (Map.values store) _
                     (fun _ => True) _ (first_page_of_filter tz store _ _ result _ Hr))).
    + auto.
    + unfold applySort, applyFilters, filterByTags, filterBySearch, filterByPriority,
        filterByStatus. cbn [f_status f_priority f_search f_tags f_sortBy].
      now rewrite E.
  - intros Hout. destruct (Js.arr_includes validPriorities key) eqn:E; [|reflexivity].
    apply arr_includes_In in E. contradiction.
  - destruct (Js.arr_includes validPriorities key) eqn:E; [|discriminate].
    now apply arr_includes_In.
  - destruct (Js.arr_includes validPriorities key); [|discriminate]. simpl in H.
    destruct (getTasks _ _ _ _); [|discriminate]. now injection H as <-.
  - destruct (Js.arr_includes validPriorities key) eqn:E; [|discriminate]. simpl in H.
    destruct (getTasks _ _ _ _) as [result|] eqn:Hr; [|discriminate].
    injection H as <-. cbn [g_tasks].
    apply arr_includes_In, valid_priority_nonempty, truthy_nonempty in E.
    refine (proj1 (group_page (fun t => String.eqb (priority t) key) (Map.values store) _ _
                     _ (first_page_of_filter tz store _ _ result _ Hr))).
    + intros t j Hk Hj. destruct (toJSON_fields t j Hj) as (_ & _ & _ & _ & -> & _).
      now apply String.eqb_eq.
    + unfold applySort, applyFilters, filterByTags, filterBySearch, filterByPriority,
        filterByStatus. cbn [f_status f_priority f_search f_tags f_sortBy].
      now rewrite E.
  - destruct (Js.arr_includes validPriorities key) eqn:E; [|discriminate]. simpl in H.
    destruct (getTasks _ _ _ _) as [result|] eqn:Hr; [|discriminate].
    injection H as <-. cbn [g_count].
    apply arr_includes_In, valid_priority_nonempty, truthy_nonempty in E.
    refine (proj2 (group_page (fun t => String.eqb (priority t) key) (Map.values store) _
                     (fun _ => True) _ (first_page_of_filter tz store _ _ result _ Hr))).
    + auto.
    + unfold applySort, applyFilters, filterByTags, filterBySearch, filterByPriority,
        filterByStatus. cbn [f_status f_priority f_search f_tags f_sortBy].
      now rewrite E.
Qed.

Lemma stats_groups_are_capped_at_ten_witness :
  statsByStatus 0 "done" twoTasks = Failure 400 /\
  match statsByStatus 0 "todo" twoTasks with
  | Json body => g_count body = 1%nat
  | Failure _ => False
  end.
Proof.
  split.
  - apply (stats_groups_are_capped_at_ten 0 "done" twoTasks).
    intros H. repeat (destruct H as [H|H]; [discriminate H|]). exact H.
  - destruct (statsByStatus 0 "todo" twoTasks) as [body|code] eqn:Hb;
      [|vm_compute in Hb; discriminate].
    pose proof (stats_groups_are_capped_at_ten 0 "todo" twoTasks) as (_ & H & _).
    destruct (H body Hb) as (_ & _ & _ & ->). reflexivity.
Defined.

(** ** The completion trend *)

Lemma toJSON_createdAt t j : toJSON t = Ok j -> createdAt t = Instant (j_createdAt j).
Proof.
  unfold toJSON, bind.
  destruct (match dueDate t with Some d => _ | None => _ end); [|discriminate].
  destruct (createdAt t) as [ms|]; [|discriminate]. simpl.
  destruct (toISOString (updatedAt t)); [|discriminate].
  now intros [= <-].
Qed.

(** The table of days after the [forEach]: each day's entry grows by the
    tasks created on that day. *)
Lemma countDay_all (ts : list Task) (js : list TaskJSON) :
  Forall2 (fun t j => toJSON t = Ok j) ts js ->
  forall m d n c,
    (c <= n)%nat ->
    m !! d = dayEntry n c ->
    fold_left countDay js m !! d = dayEntry (n + dayTotal d ts) (c + dayCompleted d ts).
Proof.
  induction 1 as [|t j ts js Htj _ IH]; intros m d n c Hcn Hm.
  - unfold dayTotal, dayCompleted. simpl. now rewrite !Nat.add_0_r.
  - pose proof (toJSON_createdAt _ _ Htj) as Hc.
    destruct (toJSON_fields _ _ Htj) as (_ & _ & _ & Hs & _).
    assert (Hon : createdOn d t = (utcDay (j_createdAt j) =? d))
      by (unfold createdOn; now rewrite Hc).
    cbn [fold_left]. unfold dayTotal, dayCompleted. cbn [List.filter].
    rewrite !Hon.
    destruct (Z.eqb_spec (utcDay (j_createdAt j)) d) as [Heq|Hne].
    + cbn [andb]. rewrite <- Hs.
      rewrite (IH (countDay m j) d (S n)
                 (if String.eqb (j_status j) "completed" then S c else c)).
      * destruct (String.eqb (j_status j) "completed"); cbn [length];
          fold (dayTotal d ts); fold (dayCompleted d ts);
          f_equal; lia.
      * destruct (String.eqb (j_status j) "completed"); lia.
      * unfold countDay. rewrite Heq, lookup_insert_eq, Hm.
        destruct n; [|reflexivity]. now replace c with 0%nat by lia.
    + cbn [andb]. apply IH; [exact Hcn|]. unfold countDay. now rewrite lookup_insert_ne.
Qed.

Lemma dayCompleted_le d l : (dayCompleted d l <= dayTotal d l)%nat.
Proof.
  unfold dayCompleted, dayTotal. induction l as [|t l IH]; simpl; [lia|].
  destruct (createdOn d t), (String.eqb (status t) "completed"); simpl; lia.
Qed.

Lemma getTasks_default_seen tz store result :
  getTasks tz store noFilters noPagination = Ok result ->
  Forall2 (fun t j => toJSON t = Ok j) (firstn 10 (Map.values store)) (tasks result).
Proof.
  intros Hr. pose proof (getTasks_default tz store) as H.
  rewrite Hr in H. simpl in H.
  destruct (mapM toJSON (firstn 10 (Map.values store))) as [js|] eqn:Hmap; [|discriminate].
  injection H as ->. now apply mapM_Forall2.
Qed.

Lemma dayEntry_Some n c stats :
  dayEntry n c = Some stats -> (1 <= n)%nat /\ d_total stats = n /\ d_completed stats = c.
Proof. destruct n; [discriminate|]. intros [= <-]. simpl. repeat split. lia. Qed.

(** X21. The completion trend has one row for each UTC day on which one
    of the tasks it reads (the first ten of the map) was created: the
    rows are in strictly ascending order of the day, each row has the
    number of those tasks created on its day, the number of completed
    ones among them, and the rate of the two. *)
Theorem statsCompletionTrend_rows tz fl store trend :
  statsCompletionTrend tz fl store = Ok trend ->
  let seen := firstn 10 (Map.values store) in
  (forall i j ri rj,
     trendData trend !! i = Some ri -> trendData trend !! j = Some rj ->
     (i < j)%nat -> date ri < date rj) /\
  (forall row, In row (trendData trend) ->
     (1 <= r_total row)%nat /\
     r_total row = dayTotal (date row) seen /\
     r_completed row = dayCompleted (date row) seen /\
     r_completionRate row = completionRateOf fl (Count (r_completed row)) (r_total row)) /\
  (forall d, (1 <= dayTotal d seen)%nat ->
     exists row, In row (trendData trend) /\ date row = d) /\
  totalDays trend = length (trendData trend).
Proof.
  intros H seen. unfold statsCompletionTrend, bind in H.
  destruct (getTasks tz store noFilters noPagination) as [result|] eqn:Hr; [|discriminate].
  injection H as <-. cbn [trendData totalDays].
  pose proof (getTasks_default_seen _ _ _ Hr) as Hjs. fold seen in Hjs.
  pose proof (fun d => countDay_all _ _ Hjs ∅ d 0 0 (le_n 0) (lookup_empty d)) as Hday.
  cbn [Nat.add] in Hday.
  set (m := fold_left countDay (tasks result) ∅) in *.
  set (row := fun '(date, stats) =>
                {| date := date; r_total := d_total stats; r_completed := d_completed stats;
                   r_completionRate :=
                     completionRateOf fl (Count (d_completed stats)) (d_total stats) |}).
  set (cmp := fun a b : TrendRow => date a - date b).
  assert (Hperm : Permutation (Array_sort cmp (map row (map_to_list m)))
                              (map row (map_to_list m)))
    by apply Array_sort_perm.
  assert (Hdate : map date (map row (map_to_list m)) = (map_to_list m).*1).
  { rewrite map_map. apply map_ext. now intros [d st]. }
  assert (Hin : forall r, In r (Array_sort cmp (map row (map_to_list m))) <->
                          exists st, m !! date r = Some st /\ r = row (date r, st)).
  { intros r. split.
    - intros H. apply (Permutation_in _ Hperm) in H.
      apply in_map_iff in H. destruct H as ([d st] & <- & H).
      apply list_elem_of_In, elem_of_map_to_list in H. exists st. now split.
    - intros (st & Hst & Hrow). apply (Permutation_in _ (Permutation_sym Hperm)).
      apply in_map_iff. exists (date r, st). split; [now symmetry|].
      now apply list_elem_of_In, elem_of_map_to_list. }
  split; [|split; [|split]].
  - intros i j ri rj Hi Hj Hij.
    assert (Hcmp : forall x y, True -> True -> (0 <? cmp x y) = (date y <? date x)).
    { intros x y _ _. unfold cmp.
      destruct (Z.ltb_spec 0 (date x - date y)), (Z.ltb_spec (date y) (date x));
        try reflexivity; lia. }
    destruct (Array_sort_ordered cmp date (fun _ => True) Hcmp (map row (map_to_list m)))
      as [_ Hsorted].
    { apply List.Forall_forall. now intros. }
    pose proof (ordered_lookup date _ i j ri rj Hsorted Hi Hj Hij) as Hle.
    assert (Hnd : NoDup (map date (Array_sort cmp (map row (map_to_list m))))).
    { rewrite Hperm, Hdate. apply NoDup_fst_map_to_list. }
    destruct (Z.eq_dec (date ri) (date rj)) as [Heq|Hne]; [|unfold keyOrder in Hle; lia].
    exfalso.
    assert (i = j); [|lia].
    eapply NoDup_lookup; [exact Hnd | |].
    + rewrite list_lookup_fmap, Hi. reflexivity.
    + rewrite list_lookup_fmap, Hj. simpl. now rewrite Heq.
  - intros r Hrow. apply Hin in Hrow. destruct Hrow as (st & Hst & ->).
    cbn [date r_total r_completed r_completionRate row] in *.
    rewrite Hday in Hst. apply dayEntry_Some in Hst.
    destruct Hst as (H1 & -> & ->). repeat split; assumption.
  - intros d Hd. specialize (Hday d).
    destruct (dayTotal d seen) as [|n] eqn:Hn; [lia|]. simpl in Hday.
    exists (row (d, mkDayStats (S n) (dayCompleted d seen))). split; [|reflexivity].
    apply Hin. eexists. split; [exact Hday | reflexivity].
  - reflexivity.
Qed.

Lemma statsCompletionTrend_rows_witness :
  match statsCompletionTrend 0 (fun x => x) threeTasks with
  | Ok trend =>
      map (fun r => (date r, r_total r, r_completed r)) (trendData trend)
      = [(19675, 2%nat, 0%nat); (19677, 1%nat, 1%nat)] /\
      forall i j ri rj,
        trendData trend !! i = Some ri -> trendData trend !! j = Some rj ->
        (i < j)%nat -> date ri < date rj
  | Err _ => False
  end.
Proof.
  destruct (statsCompletionTrend 0 (fun x => x) threeTasks) as [trend|] eqn:H;
    [|vm_compute in H; discriminate].
  split.
  - vm_compute in H. injection H as <-. reflexivity.
  - exact (proj1 (statsCompletionTrend_rows 0 (fun x => x) threeTasks trend H)).
Defined.

(** ** The reducer of the task context *)

Section Reducer.

Import TaskContext.

Lemma filter_all {A} (f : A -> bool) (l : list A) :
  (forall x, In x l -> f x = true) -> List.filter f l = l.
Proof.
  induction l as [|x l IH]; intros H; simpl; [reflexivity|].
  rewrite (H x) by now left. f_equal. apply IH. intros y Hy. apply H. now right.
Qed.

Lemma taskReducer_invariant s action :
  (st_loading s = true -> st_error s = None) ->
  st_loading (taskReducer s action) = true -> st_error (taskReducer s action) = None.
Proof.
  intros Hs. destruct action as [[|]| | | | | | | | | |]; simpl; try exact Hs;
    try reflexivity; discriminate.
Qed.

(** X22. The context never shows a request as pending together with an
    error: if that holds of a state, it holds after every sequence of
    actions. *)
Theorem reducer_never_loading_with_error (actions : list Action) (s : State) :
  (st_loading s = true -> st_error s = None) ->
  st_loading (fold_left taskReducer actions s) = true ->
  st_error (fold_left taskReducer actions s) = None.
Proof.
  revert s. induction actions as [|a actions IH]; intros s Hs; simpl.
  - exact Hs.
  - apply IH. now apply taskReducer_invariant.
Qed.

Lemma reducer_never_loading_with_error_witness :
  st_error (fold_left taskReducer
              [SET_ERROR (Some "Network Error"); ADD_TASK sampleJSON;
               SET_LOADING true]
              initialState) = None.
Proof.
  apply reducer_never_loading_with_error; [discriminate | reflexivity].
Defined.

(** X23. Adding a task and then deleting it by its id gives back the
    state, when no task of the list had that id. *)
Theorem ADD_TASK_then_DELETE_TASK_restores (s : State) (task : TaskJSON) :
  (forall x, In x (st_tasks s) -> j_id x <> j_id task) ->
  taskReducer (taskReducer s (ADD_TASK task)) (DELETE_TASK (j_id task)) = s.
Proof.
  intros Hfresh. destruct s as [l ld er fs [pg lm tot tp hn hp] sb so].
  unfold taskReducer, withPagination, withTasks, withTotal.
  cbn [st_tasks st_loading st_error st_filters st_pagination st_sortBy st_sortOrder
       ps_page ps_limit ps_total ps_totalPages ps_hasNext ps_hasPrev] in *.
  cbn [List.filter]. rewrite String.eqb_refl. cbn [negb].
  rewrite filter_all.
  - do 2 f_equal. lia.
  - intros x Hx. apply Hfresh in Hx. apply String.eqb_neq in Hx. now rewrite Hx.
Qed.

Lemma ADD_TASK_then_DELETE_TASK_restores_witness :
  taskReducer (taskReducer (taskReducer initialState (ADD_TASK otherJSON))
                 (ADD_TASK sampleJSON))
              (DELETE_TASK (j_id sampleJSON))
  = taskReducer initialState (ADD_TASK otherJSON).
Proof.
  apply (ADD_TASK_then_DELETE_TASK_restores
           (taskReducer initialState (ADD_TASK otherJSON))
           sampleJSON).
  intros x [<-|[]]. discriminate.
Defined.

(** X24. [UPDATE_TASK] replaces in place: the ids of the list stay what
    they were, in the same order, every task with the id of the payload
    becomes the payload, and when no task has that id the state is
    unchanged; the total is not touched. *)
Theorem UPDATE_TASK_replaces_in_place (s : State) (payload : TaskJSON) :
  map j_id (st_tasks (taskReducer s (UPDATE_TASK payload))) = map j_id (st_tasks s) /\
  (forall task, In task (st_tasks (taskReducer s (UPDATE_TASK payload))) ->
     j_id task = j_id payload -> task = payload) /\
  st_pagination (taskReducer s (UPDATE_TASK payload)) = st_pagination s /\
  ((forall x, In x (st_tasks s) -> j_id x <> j_id payload) ->
   taskReducer s (UPDATE_TASK payload) = s).
Proof.
  destruct s as [l ld er fs pg sb so].
  unfold taskReducer, withTasks.
  cbn [st_tasks st_loading st_error st_filters st_pagination st_sortBy st_sortOrder].
  split; [|split; [|split; [reflexivity|]]].
  - rewrite map_map. apply map_ext. intros task.
    destruct (String.eqb_spec (j_id task) (j_id payload)); congruence.
  - intros task Hin Hid. apply in_map_iff in Hin. destruct Hin as (x & Hx & _).
    destruct (String.eqb_spec (j_id x) (j_id payload)); congruence.
  - intros Habsent. f_equal. rewrite <- (map_id l) at 2. apply map_ext_in.
    intros x Hx. apply Habsent in Hx. apply String.eqb_neq in Hx. now rewrite Hx.
Qed.

Lemma UPDATE_TASK_replaces_in_place_witness :
  taskReducer (taskReducer initialState (ADD_TASK otherJSON)) (UPDATE_TASK sampleJSON)
  = taskReducer initialState (ADD_TASK otherJSON).
Proof.
  apply (UPDATE_TASK_replaces_in_place
           (taskReducer initialState (ADD_TASK otherJSON)) sampleJSON).
  intros x [<-|[]]. discriminate.
Defined.

End Reducer.
